(** * Selection algorithms and elementary containers

    A shallow embedding of [selection_and_structures.py]: the two selection
    algorithms ([median_of_medians], [randomized_quickselect]), the inline
    three-way partition loop they share, and the [Stack], [Queue] and
    [LinkedList] classes.

    Python integers are unbounded, so elements, ranks and counters are [Z].
    A Python call either returns a value or raises; the recursion of the
    selectors is not structural, so the embedding is driven by a fuel
    argument and a third outcome records that the fuel ran out.  A fourth
    outcome, [Stuck], marks a reference to no object: Python cannot build
    one, and the invariants below show the list code never meets one. *)

From stdpp Require Import base numbers list sorting gmap.

Local Open Scope Z_scope.

(** ** Outcomes of a Python call *)

Inductive exn : Type :=
  | IndexError
  | ValueError.

Inductive outcome (A : Type) : Type :=
  | Return (a : A)
  | Raise (e : exn)
  | OutOfFuel
  | Stuck.

Arguments Return {A} a.
Arguments Raise {A} e.
Arguments OutOfFuel {A}.
Arguments Stuck {A}.

Global Instance outcome_ret : MRet outcome := λ A a, Return a.
Global Instance outcome_bind : MBind outcome := λ A B f m,
  match m with
  | Return a => f a
  | Raise e => Raise e
  | OutOfFuel => OutOfFuel
  | Stuck => Stuck
  end.

(** ** The Python builtins the module relies on *)

Module Py.

(** [len(l)] as a Python integer. *)
Definition len {A} (l : list A) : Z := Z.of_nat (length l).

(** [l[i]]: a negative index counts from the end of the list, an index
    outside [-len(l), len(l)) raises [IndexError]. *)
Definition getitem {A} (l : list A) (i : Z) : outcome A :=
  let j := if i <? 0 then i + len l else i in
  if (0 <=? j) && (j <? len l)
  then match l !! Z.to_nat j with
       | Some x => Return x
       | None => Raise IndexError
       end
  else Raise IndexError.

(** [l[i:j]] for natural [i <= j]; the slice is clipped to the list. *)
Definition slice {A} (l : list A) (i j : nat) : list A :=
  take (j - i) (drop i l).

(** [range(start, stop, step)] for a positive step: the values
    [start, start + step, ...] below [stop]. *)
Definition range (start stop step : nat) : list nat :=
  (λ j, start + j * step)%nat <$> seq 0 ((stop - start + step - 1) / step)%nat.

(** [sorted(l)] on a list of integers. *)
Definition sorted (l : list Z) : list Z := merge_sort Z.le l.

End Py.

(** ** The three-way partition loop

    Both selectors run the same loop over [arr]: an element below the pivot
    is appended to [left_], one above it to [right_], and any other bumps
    [pivot_count]. *)

Definition partition_step (pivot : Z) (st : list Z * list Z * Z) (x : Z)
  : list Z * list Z * Z :=
  let '(left_, right_, pivot_count) := st in
  if x <? pivot then (left_ ++ [x], right_, pivot_count)
  else if x >? pivot then (left_, right_ ++ [x], pivot_count)
  else (left_, right_, pivot_count + 1).

Definition partition (pivot : Z) (arr : list Z) : list Z * list Z * Z :=
  fold_left (partition_step pivot) arr ([], [], 0).

(** What the loop computes, as filters of [arr]. *)
Definition below (p : Z) (arr : list Z) : list Z := filter (λ x, x < p) arr.
Definition above (p : Z) (arr : list Z) : list Z := filter (λ x, p < x) arr.
Definition equal_to (p : Z) (arr : list Z) : list Z := filter (λ x, x = p) arr.

(** ** median_of_medians *)

(** The loop [for i in range(0, len(arr), 5)] that collects the median of
    each group [arr[i:i + 5]]. *)
Fixpoint medians_loop (arr : list Z) (idxs : list nat) (medians : list Z)
  : outcome (list Z) :=
  match idxs with
  | [] => Return medians
  | i :: idxs' =>
      let group := Py.slice arr i (i + 5) in
      m ← Py.getitem (Py.sorted group) (Py.len group / 2);
      medians_loop arr idxs' (medians ++ [m])
  end.

Definition group_medians (arr : list Z) : outcome (list Z) :=
  medians_loop arr (Py.range 0 (length arr) 5) [].

(** The group starting at index [i], and the list of all groups. *)
Definition group_at (arr : list Z) (i : nat) : list Z := Py.slice arr i (i + 5).

Definition groups (arr : list Z) : list (list Z) :=
  group_at arr <$> Py.range 0 (length arr) 5.

(** [m] is the element of [sorted(group)] at index [len(group) // 2]. *)
Definition is_median_of (group : list Z) (m : Z) : Prop :=
  Py.sorted group !! Z.to_nat (Py.len group / 2) = Some m.

Fixpoint median_of_medians_fuel (fuel : nat) (arr : list Z) (k : Z)
  : outcome Z :=
  match fuel with
  | O => OutOfFuel
  | S fuel' =>
      if Py.len arr <=? 5 then Py.getitem (Py.sorted arr) (k - 1)
      else
        medians ← group_medians arr;
        pivot ← median_of_medians_fuel fuel' medians (Py.len medians / 2 + 1);
        let '(left_, right_, pivot_count) := partition pivot arr in
        if k <=? Py.len left_ then median_of_medians_fuel fuel' left_ k
        else if k >? Py.len left_ + pivot_count
             then median_of_medians_fuel fuel' right_
                    (k - Py.len left_ - pivot_count)
             else Return pivot
  end.

(** One unit of fuel per element is always enough (see
    [median_of_medians_fuel_enough]). *)
Definition median_of_medians (arr : list Z) (k : Z) : outcome Z :=
  median_of_medians_fuel (S (length arr)) arr k.

(** ** randomized_quickselect *)

(** The generator behind [random.randint]: [draw g a b] yields an integer of
    [a..b] and the next generator state whenever the range is not empty. *)
Class RandomSource (G : Type) := {
  draw : G → Z → Z → Z * G;
  draw_range : ∀ g a b, a ≤ b → a ≤ (draw g a b).1 ≤ b
}.

(** [random.randint(a, b)] raises [ValueError] on an empty range. *)
Definition randint `{RandomSource G} (g : G) (a b : Z) : outcome Z * G :=
  if a <=? b
  then let '(i, g') := draw g a b in (Return i, g')
  else (Raise ValueError, g).

(** A scripted generator: the state is the list of raw draws still to come,
    each reduced into the requested range; once exhausted it answers with
    the lower bound. *)
Definition scripted_draw (g : list Z) (a b : Z) : Z * list Z :=
  match g with
  | [] => (a, [])
  | x :: g' => (a + x `mod` (b - a + 1), g')
  end.

Lemma scripted_draw_range (g : list Z) a b :
  a ≤ b → a ≤ (scripted_draw g a b).1 ≤ b.
Proof.
  intros Hab. destruct g as [|x g]; simpl; [lia|].
  pose proof (Z.mod_pos_bound x (b - a + 1)). lia.
Qed.

Global Instance scripted_source : RandomSource (list Z) :=
  {| draw := scripted_draw; draw_range := scripted_draw_range |}.

Fixpoint randomized_quickselect_fuel `{RandomSource G}
    (fuel : nat) (g : G) (arr : list Z) (k : Z) : outcome Z * G :=
  match fuel with
  | O => (OutOfFuel, g)
  | S fuel' =>
      if Py.len arr =? 1 then (Py.getitem arr 0, g)
      else
        match randint g 0 (Py.len arr - 1) with
        | (Return pivot_idx, g') =>
            match Py.getitem arr pivot_idx with
            | Return pivot =>
                let '(left_, right_, pivot_count) := partition pivot arr in
                if k <=? Py.len left_
                then randomized_quickselect_fuel fuel' g' left_ k
                else if k >? Py.len left_ + pivot_count
                     then randomized_quickselect_fuel fuel' g' right_
                            (k - Py.len left_ - pivot_count)
                     else (Return pivot, g')
            | Raise e => (Raise e, g')
            | OutOfFuel => (OutOfFuel, g')
            | Stuck => (Stuck, g')
            end
        | (Raise e, g') => (Raise e, g')
        | (OutOfFuel, g') => (OutOfFuel, g')
        | (Stuck, g') => (Stuck, g')
        end
  end.

Definition randomized_quickselect `{RandomSource G}
    (g : G) (arr : list Z) (k : Z) : outcome Z * G :=
  randomized_quickselect_fuel (S (length arr)) g arr k.

(** ** Stack *)

Module Stack.
Section stack.
Context {A : Type}.

(** [self.items]; the top of the stack is the end of the list. *)
Record t := { items : list A }.

Definition init : t := {| items := [] |}.

Definition push (self : t) (item : A) : t :=
  {| items := items self ++ [item] |}.

Definition is_empty (self : t) : bool := Py.len (items self) =? 0.

(** [list.pop()]: the last element, and the list without it. *)
Definition pop (self : t) : outcome A * t :=
  if negb (is_empty self)
  then match Py.getitem (items self) (-1) with
       | Return x =>
           (Return x,
            {| items := take (length (items self) - 1) (items self) |})
       | r => (r, self)
       end
  else (Raise IndexError, self).

Definition peek (self : t) : outcome A :=
  if negb (is_empty self)
  then Py.getitem (items self) (-1)
  else Raise IndexError.
End stack.
Arguments t : clear implicits.
End Stack.

(** ** Queue *)

Module Queue.
Section queue.
Context {A : Type}.

(** [self.items]; the front of the queue is the start of the list. *)
Record t := { items : list A }.

Definition init : t := {| items := [] |}.

Definition enqueue (self : t) (item : A) : t :=
  {| items := items self ++ [item] |}.

Definition is_empty (self : t) : bool := Py.len (items self) =? 0.

(** [list.pop(0)]: the first element, and the list without it. *)
Definition dequeue (self : t) : outcome A * t :=
  if negb (is_empty self)
  then match Py.getitem (items self) 0 with
       | Return x => (Return x, {| items := drop 1 (items self) |})
       | r => (r, self)
       end
  else (Raise IndexError, self).

Definition peek (self : t) : outcome A :=
  if negb (is_empty self)
  then Py.getitem (items self) 0
  else Raise IndexError.
End queue.
Arguments t : clear implicits.
End Queue.

(** ** LinkedList

    [Node] objects live in an object store and refer to each other by
    location, so that [delete] can update a node in place as the source
    does. *)

Module LinkedList.

Definition loc := positive.

Section linked_list.
Context {A : Type} `{EqDecision A}.

Record Node := { data : A; next : option loc }.

(** The store of nodes together with [self.head]. *)
Record t := { heap : gmap loc Node; head : option loc }.

Definition init : t := {| heap := ∅; head := None |}.

Definition insert_head (self : t) (d : A) : t :=
  let l := fresh (dom (heap self)) in
  let new_node := {| data := d; next := None |} in
  let new_node := {| data := data new_node; next := head self |} in
  {| heap := <[l := new_node]> (heap self); head := Some l |}.

(** [while current.next and current.next.data != data:
       current = current.next]; the result is the final [current]. *)
Fixpoint delete_walk (fuel : nat) (h : gmap loc Node) (current : loc)
    (d : A) : outcome loc :=
  match fuel with
  | O => OutOfFuel
  | S fuel' =>
      match h !! current with
      | None => Stuck
      | Some c =>
          match next c with
          | None => Return current
          | Some n =>
              match h !! n with
              | None => Stuck
              | Some nn =>
                  if decide (data nn ≠ d)
                  then delete_walk fuel' h n d
                  else Return current
              end
          end
      end
  end.

(** [if current.next: current.next = current.next.next]. *)
Definition unlink_next (h : gmap loc Node) (current : loc)
  : outcome (gmap loc Node) :=
  match h !! current with
  | None => Stuck
  | Some c =>
      match next c with
      | None => Return h
      | Some n =>
          match h !! n with
          | None => Stuck
          | Some nn =>
              Return (<[current := {| data := data c; next := next nn |}]> h)
          end
      end
  end.

Definition delete_fuel (fuel : nat) (self : t) (d : A) : outcome t :=
  match head self with
  | None => Return self
  | Some hd =>
      match heap self !! hd with
      | None => Stuck
      | Some hn =>
          if decide (data hn = d)
          then Return {| heap := heap self; head := next hn |}
          else
            current ← delete_walk fuel (heap self) hd d;
            h' ← unlink_next (heap self) current;
            Return {| heap := h'; head := head self |}
      end
  end.

(** A walk visits each node of the store at most once. *)
Definition delete (self : t) (d : A) : outcome t :=
  delete_fuel (S (size (heap self))) self d.

(** [while current: elements.append(current.data);
       current = current.next]. *)
Fixpoint traverse_loop (fuel : nat) (h : gmap loc Node)
    (current : option loc) (elements : list A) : outcome (list A) :=
  match current with
  | None => Return elements
  | Some l =>
      match fuel with
      | O => OutOfFuel
      | S fuel' =>
          match h !! l with
          | None => Stuck
          | Some n => traverse_loop fuel' h (next n) (elements ++ [data n])
          end
      end
  end.

Definition traverse (self : t) : outcome (list A) :=
  traverse_loop (size (heap self)) (heap self) (head self) [].

(** The store holds, from [p] on, the nodes at [ls] carrying [xs]. *)
Inductive chain (h : gmap loc Node)
  : option loc → list loc → list A → Prop :=
  | chain_nil : chain h None [] []
  | chain_cons l x nx ls xs :
      h !! l = Some {| data := x; next := nx |} →
      chain h nx ls xs →
      chain h (Some l) (l :: ls) (x :: xs).

Definition represents (self : t) (xs : list A) : Prop :=
  ∃ ls, chain (heap self) (head self) ls xs.

(** The list without the first occurrence of [d]. *)
Fixpoint remove_first (d : A) (xs : list A) : list A :=
  match xs with
  | [] => []
  | x :: xs' => if decide (x = d) then xs' else x :: remove_first d xs'
  end.

(** The states a client can build. *)
Inductive reachable : t → Prop :=
  | reachable_init : reachable init
  | reachable_insert_head self d :
      reachable self → reachable (insert_head self d)
  | reachable_delete self self' d :
      reachable self → delete self d = Return self' → reachable self'.
End linked_list.

Arguments Node : clear implicits.
Arguments t : clear implicits.
End LinkedList.

(** ** Client programs

    Small drivers over the three containers, used to state how their
    operations compose. *)

(** [n] calls of [pop], collecting what they return; the first call that
    raises ends the run. *)
Fixpoint pop_times {A} (n : nat) (s : Stack.t A)
  : outcome (list A) * Stack.t A :=
  match n with
  | O => (Return [], s)
  | S n' =>
      match Stack.pop s with
      | (Return x, s') =>
          match pop_times n' s' with
          | (Return xs, s'') => (Return (x :: xs), s'')
          | r => r
          end
      | (Raise e, s') => (Raise e, s')
      | (OutOfFuel, s') => (OutOfFuel, s')
      | (Stuck, s') => (Stuck, s')
      end
  end.

(** [n] calls of [dequeue], in the same way. *)
Fixpoint dequeue_times {A} (n : nat) (q : Queue.t A)
  : outcome (list A) * Queue.t A :=
  match n with
  | O => (Return [], q)
  | S n' =>
      match Queue.dequeue q with
      | (Return x, q') =>
          match dequeue_times n' q' with
          | (Return xs, q'') => (Return (x :: xs), q'')
          | r => r
          end
      | (Raise e, q') => (Raise e, q')
      | (OutOfFuel, q') => (OutOfFuel, q')
      | (Stuck, q') => (Stuck, q')
      end
  end.

(** A call on a linked list, a program of such calls, and the same program
    on an ordinary list. *)
Inductive list_op (A : Type) : Type :=
  | InsertHead (d : A)
  | Delete (d : A).

Arguments InsertHead {A} d.
Arguments Delete {A} d.

Fixpoint run_ops {A} `{EqDecision A} (ops : list (list_op A))
    (self : LinkedList.t A) : outcome (LinkedList.t A) :=
  match ops with
  | [] => Return self
  | InsertHead d :: ops' => run_ops ops' (LinkedList.insert_head self d)
  | Delete d :: ops' =>
      self' ← LinkedList.delete self d; run_ops ops' self'
  end.

Fixpoint model_ops {A} `{EqDecision A} (ops : list (list_op A))
    (xs : list A) : list A :=
  match ops with
  | [] => xs
  | InsertHead d :: ops' => model_ops ops' (d :: xs)
  | Delete d :: ops' => model_ops ops' (LinkedList.remove_first d xs)
  end.

(** * Properties *)

(** ** Python builtins *)

Section py_facts.
Context {A : Type}.
Implicit Types (l : list A) (i : Z).

Lemma getitem_in_range l i :
  0 ≤ i < Py.len l →
  ∃ x, l !! Z.to_nat i = Some x ∧ Py.getitem l i = Return x.
Proof.
  intros Hi. unfold Py.getitem, Py.len in *.
  destruct (lookup_lt_is_Some_2 l (Z.to_nat i)) as [x Hx]; [lia|].
  exists x. split; [done|].
  rewrite (proj2 (Z.ltb_ge i 0)) by lia.
  rewrite (proj2 (Z.leb_le 0 i)), (proj2 (Z.ltb_lt i _)) by lia.
  simpl. by rewrite Hx.
Qed.

Lemma getitem_lookup l i x :
  0 ≤ i → l !! Z.to_nat i = Some x → Py.getitem l i = Return x.
Proof.
  intros Hi Hx. apply lookup_lt_Some in Hx as Hlt.
  destruct (getitem_in_range l i) as (y & Hy & ->);
    [unfold Py.len; lia | congruence].
Qed.

Lemma getitem_too_large l i : Py.len l ≤ i → Py.getitem l i = Raise IndexError.
Proof.
  intros Hi. unfold Py.getitem, Py.len in *.
  rewrite (proj2 (Z.ltb_ge i 0)) by lia.
  rewrite (proj2 (Z.ltb_ge i _)) by lia.
  by rewrite andb_false_r.
Qed.

Lemma getitem_negative l i :
  - Py.len l ≤ i < 0 →
  ∃ x, l !! Z.to_nat (Py.len l + i) = Some x ∧ Py.getitem l i = Return x.
Proof.
  intros Hi. unfold Py.getitem, Py.len in *.
  destruct (lookup_lt_is_Some_2 l (Z.to_nat (Z.of_nat (length l) + i)))
    as [x Hx];
    [lia|].
  exists x. split; [done|].
  rewrite (proj2 (Z.ltb_lt i 0)) by lia.
  rewrite (proj2 (Z.leb_le 0 _)), (proj2 (Z.ltb_lt _ _)) by lia.
  simpl. by rewrite Z.add_comm, Hx.
Qed.

Lemma getitem_elem_of l i x : Py.getitem l i = Return x → x ∈ l.
Proof.
  unfold Py.getitem. case_match; [|done].
  destruct (l !! _) eqn:Hx; [|done].
  intros [= <-]. by eapply list_elem_of_lookup_2.
Qed.

Lemma getitem_empty i : Py.getitem (@nil A) i = Raise IndexError.
Proof.
  unfold Py.getitem, Py.len. simpl.
  destruct (i <? 0); case_match eqn:Hrange; try done;
    apply andb_prop in Hrange as [?%Z.leb_le ?%Z.ltb_lt]; lia.
Qed.
End py_facts.

Lemma sorted_Permutation (l : list Z) : Py.sorted l ≡ₚ l.
Proof. apply merge_sort_Permutation. Qed.

Lemma sorted_StronglySorted (l : list Z) : StronglySorted Z.le (Py.sorted l).
Proof. apply StronglySorted_merge_sort; apply _. Qed.

Lemma length_sorted (l : list Z) : length (Py.sorted l) = length l.
Proof. by rewrite sorted_Permutation. Qed.

Lemma len_sorted (l : list Z) : Py.len (Py.sorted l) = Py.len l.
Proof. unfold Py.len. by rewrite length_sorted. Qed.

Lemma elem_of_sorted (l : list Z) x : x ∈ Py.sorted l ↔ x ∈ l.
Proof. by rewrite sorted_Permutation. Qed.

(** A sorted list is determined by its elements. *)
Lemma sorted_unique (l1 l2 : list Z) :
  StronglySorted Z.le l1 → l1 ≡ₚ l2 → Py.sorted l2 = l1.
Proof.
  intros Hs Hp. apply (StronglySorted_unique Z.le).
  - apply sorted_StronglySorted.
  - done.
  - by rewrite sorted_Permutation.
Qed.

(** ** The partition loop *)

Lemma partition_loop p arr l r c :
  fold_left (partition_step p) arr (l, r, c)
  = (l ++ below p arr, r ++ above p arr, c + Py.len (equal_to p arr)).
Proof.
  unfold below, above, equal_to, Py.len.
  revert l r c. induction arr as [|x arr IH]; intros l r c; simpl.
  - rewrite !app_nil_r. f_equal; lia.
  - rewrite !filter_cons.
    destruct (Z.ltb_spec x p); [|destruct (Z.gtb_spec x p)]; rewrite IH;
      repeat case_decide; try lia; simpl; rewrite <- ?app_assoc; simpl;
      f_equal; lia.
Qed.

Lemma partition_spec p arr :
  partition p arr = (below p arr, above p arr, Py.len (equal_to p arr)).
Proof. unfold partition. rewrite partition_loop. simpl. f_equal; lia. Qed.

Lemma three_way_Permutation p arr :
  below p arr ++ equal_to p arr ++ above p arr ≡ₚ arr.
Proof.
  unfold below, above, equal_to.
  induction arr as [|x arr IH]; [done|].
  rewrite !filter_cons. repeat case_decide; try lia; simpl.
  - by rewrite IH.
  - by rewrite <- Permutation_middle, IH.
  - by rewrite app_assoc, <- Permutation_middle, <- app_assoc, IH.
Qed.

Lemma three_way_length p arr :
  Py.len (below p arr) + Py.len (equal_to p arr) + Py.len (above p arr)
  = Py.len arr.
Proof.
  unfold Py.len. rewrite <- (three_way_Permutation p arr) at 4.
  rewrite !length_app. lia.
Qed.

Lemma equal_to_replicate p arr :
  equal_to p arr = replicate (length (equal_to p arr)) p.
Proof.
  unfold equal_to. induction arr as [|x arr IH]; [done|].
  rewrite filter_cons. case_decide; subst; simpl; [f_equal|]; done.
Qed.

Lemma equal_to_nonempty p arr : p ∈ arr → 1 ≤ Py.len (equal_to p arr).
Proof.
  intros Hp. assert (p ∈ equal_to p arr) as Hin
    by (by apply list_elem_of_filter).
  unfold Py.len. destruct (equal_to p arr); [inv Hin | simpl; lia].
Qed.

(** The sorted list is the sorted lower part, the run of pivots, and the
    sorted upper part. *)
Lemma sorted_three_way p arr :
  Py.sorted arr
  = Py.sorted (below p arr) ++ equal_to p arr ++ Py.sorted (above p arr).
Proof.
  apply sorted_unique.
  - apply StronglySorted_app_2; [| apply sorted_StronglySorted |].
    + intros x1 x2 Hx1%elem_of_sorted%list_elem_of_filter.
      rewrite elem_of_app, elem_of_sorted.
      intros [Hx2%list_elem_of_filter | Hx2%list_elem_of_filter]; lia.
    + apply StronglySorted_app_2; [| | apply sorted_StronglySorted].
      * intros x1 x2 Hx1%list_elem_of_filter
          Hx2%elem_of_sorted%list_elem_of_filter. lia.
      * rewrite equal_to_replicate.
        induction (length _); simpl; constructor; [done|].
        apply Forall_replicate. lia.
  - by rewrite !sorted_Permutation, three_way_Permutation.
Qed.

(** The rank arithmetic of both selectors, read off the sorted list. *)
Lemma sorted_lookup_three_way p arr (n : nat) :
  let L := length (below p arr) in
  let E := length (equal_to p arr) in
  Py.sorted arr !! n =
    if decide (n < L)%nat then Py.sorted (below p arr) !! n
    else if decide (n < L + E)%nat then Some p
    else Py.sorted (above p arr) !! (n - L - E)%nat.
Proof.
  intros L E. rewrite (sorted_three_way p arr).
  case_decide as HL.
  { rewrite lookup_app_l; [done | by rewrite length_sorted]. }
  rewrite lookup_app_r, length_sorted by (rewrite length_sorted; lia).
  fold L. case_decide as HE.
  { rewrite lookup_app_l by (fold E; lia).
    rewrite equal_to_replicate. apply lookup_replicate_2. fold E. lia. }
  rewrite lookup_app_r by (fold E; lia). done.
Qed.

(** ** Groups of five and their medians *)

Lemma group_at_eq arr i : group_at arr i = take 5 (drop i arr).
Proof. unfold group_at, Py.slice. f_equal. lia. Qed.

Lemma length_group_at arr i :
  length (group_at arr i) = (5 `min` (length arr - i))%nat.
Proof. by rewrite group_at_eq, length_take, length_drop. Qed.

Lemma group_at_subseteq arr i : group_at arr i ⊆ arr.
Proof.
  rewrite group_at_eq. etrans; [apply subseteq_take | apply subseteq_drop].
Qed.

Lemma range_five n :
  Py.range 0 n 5 = (λ j, j * 5)%nat <$> seq 0 ((n + 4) / 5)%nat.
Proof.
  unfold Py.range. replace (n - 0 + 5 - 1)%nat with (n + 4)%nat by lia. done.
Qed.

Lemma length_range_five n : length (Py.range 0 n 5) = ((n + 4) / 5)%nat.
Proof. by rewrite range_five, length_fmap, length_seq. Qed.

Lemma range_five_lt n : Forall (λ i, i < n)%nat (Py.range 0 n 5).
Proof.
  rewrite range_five, Forall_fmap. apply Forall_seq. intros j Hj. simpl.
  pose proof (Nat.div_mod (n + 4) 5 ltac:(done)) as Hq.
  pose proof (Nat.mod_upper_bound (n + 4) 5 ltac:(done)) as Hr.
  revert Hj Hq Hr. generalize ((n + 4) / 5)%nat ((n + 4) `mod` 5)%nat. lia.
Qed.

Lemma medians_loop_spec arr idxs medians :
  Forall (λ i, i < length arr)%nat idxs →
  ∃ ms, medians_loop arr idxs medians = Return (medians ++ ms)
        ∧ Forall2 (λ i m, is_median_of (group_at arr i) m) idxs ms.
Proof.
  intros Hidxs. revert medians.
  induction Hidxs as [|i idxs Hi _ IH]; intros medians; simpl.
  { exists []. by rewrite app_nil_r. }
  fold (group_at arr i).
  destruct (getitem_in_range (Py.sorted (group_at arr i))
              (Py.len (group_at arr i) / 2)) as (m & Hm & ->).
  { rewrite len_sorted. unfold Py.len. rewrite length_group_at.
    assert (1 ≤ Z.of_nat (5 `min` (length arr - i))) by lia.
    split; [apply Z.div_pos; lia | apply Z.div_lt; lia]. }
  destruct (IH (medians ++ [m])) as (ms & Hloop & Hms).
  exists (m :: ms). simpl. rewrite Hloop, <- app_assoc. by split; [|constructor].
Qed.

Lemma group_medians_spec arr :
  ∃ medians, group_medians arr = Return medians
             ∧ Forall2 (λ group m, is_median_of group m) (groups arr) medians.
Proof.
  destruct (medians_loop_spec arr (Py.range 0 (length arr) 5) [])
    as (ms & Hloop & Hms); [apply range_five_lt|].
  exists ms. split; [done|]. unfold groups. by apply Forall2_fmap_l.
Qed.

Lemma length_groups arr : length (groups arr) = ((length arr + 4) / 5)%nat.
Proof. unfold groups. by rewrite length_fmap, length_range_five. Qed.

Lemma groups_take arr (m : nat) :
  concat (group_at arr <$> ((λ j, j * 5)%nat <$> seq 0 m)) = take (m * 5) arr.
Proof.
  induction m as [|m IH]; [done|].
  rewrite seq_S, !fmap_app, concat_app, IH. simpl.
  rewrite app_nil_r, group_at_eq, take_take_drop. f_equal. lia.
Qed.

(** The groups are consecutive: glued together they give back [arr]. *)
Lemma concat_groups arr : concat (groups arr) = arr.
Proof.
  unfold groups. rewrite range_five, groups_take. apply take_ge.
  pose proof (Nat.div_mod (length arr + 4) 5 ltac:(done)) as Hq.
  pose proof (Nat.mod_upper_bound (length arr + 4) 5 ltac:(done)) as Hr.
  revert Hq Hr.
  generalize ((length arr + 4) / 5)%nat ((length arr + 4) `mod` 5)%nat. lia.
Qed.

Lemma groups_size arr :
  Forall (λ group, 1 ≤ length group ≤ 5)%nat (groups arr).
Proof.
  unfold groups. rewrite Forall_fmap.
  eapply Forall_impl; [apply range_five_lt|]. intros i Hi. simpl in *.
  rewrite length_group_at. lia.
Qed.

Lemma is_median_of_elem_of group m : is_median_of group m → m ∈ group.
Proof. intros Hm. eapply elem_of_sorted, list_elem_of_lookup_2, Hm. Qed.

Lemma medians_subseteq arr medians :
  Forall2 (λ group m, is_median_of group m) (groups arr) medians →
  medians ⊆ arr.
Proof.
  intros HF m Hm.
  destruct (proj1 (list_elem_of_lookup _ _) Hm) as [j Hj].
  destruct (Forall2_lookup_r _ _ _ _ _ HF Hj) as (group & Hgroup & Hmed).
  apply list_elem_of_lookup_2 in Hgroup. unfold groups in Hgroup.
  apply list_elem_of_fmap in Hgroup as (i & -> & _).
  by eapply group_at_subseteq, is_median_of_elem_of.
Qed.

(** ** Rank arithmetic after partitioning *)

Lemma below_shorter p arr : p ∈ arr → (length (below p arr) < length arr)%nat.
Proof. intros Hp. apply (length_filter_lt _ _ p); [done | lia]. Qed.

Lemma above_shorter p arr : p ∈ arr → (length (above p arr) < length arr)%nat.
Proof. intros Hp. apply (length_filter_lt _ _ p); [done | lia]. Qed.

Lemma rank_in_below p arr k :
  1 ≤ k ≤ Py.len (below p arr) →
  Py.sorted arr !! Z.to_nat (k - 1)
  = Py.sorted (below p arr) !! Z.to_nat (k - 1).
Proof.
  intros Hk. unfold Py.len in Hk. rewrite (sorted_lookup_three_way p).
  simpl. case_decide; [done | lia].
Qed.

Lemma rank_in_pivots p arr k :
  Py.len (below p arr) < k ≤ Py.len (below p arr) + Py.len (equal_to p arr) →
  Py.sorted arr !! Z.to_nat (k - 1) = Some p.
Proof.
  intros Hk. unfold Py.len in Hk. rewrite (sorted_lookup_three_way p).
  simpl. repeat case_decide; [lia | done | lia].
Qed.

Lemma rank_in_above p arr k :
  Py.len (below p arr) + Py.len (equal_to p arr) < k →
  Py.sorted arr !! Z.to_nat (k - 1)
  = Py.sorted (above p arr)
      !! Z.to_nat (k - Py.len (below p arr) - Py.len (equal_to p arr) - 1).
Proof.
  intros Hk. unfold Py.len in *. rewrite (sorted_lookup_three_way p).
  simpl. repeat case_decide; [lia.. |]. f_equal. lia.
Qed.

(** ** median_of_medians returns the k-th smallest element *)

Lemma medians_facts arr :
  5 < Py.len arr →
  ∃ medians,
    group_medians arr = Return medians
    ∧ Forall2 (λ group m, is_median_of group m) (groups arr) medians
    ∧ medians ⊆ arr
    ∧ length medians = ((length arr + 4) / 5)%nat
    ∧ (length medians < length arr)%nat
    ∧ 1 ≤ Py.len medians / 2 + 1 ≤ Py.len medians.
Proof.
  intros Hlen. unfold Py.len in *.
  destruct (group_medians_spec arr) as (medians & Hgm & HF).
  assert (length medians = ((length arr + 4) / 5)%nat) as Hmedians.
  { apply Forall2_length in HF. by rewrite length_groups in HF. }
  pose proof (Nat.div_mod (length arr + 4) 5 ltac:(done)) as Hq.
  pose proof (Nat.mod_upper_bound (length arr + 4) 5 ltac:(done)) as Hr.
  rewrite <- Hmedians in Hq.
  exists medians.
  split_and!; [done | done | by eapply medians_subseteq | done | lia | ..].
  all: assert (2 ≤ Z.of_nat (length medians)) as Hm by lia; revert Hm.
  all: generalize (Z.of_nat (length medians)); intros n Hn.
  all: pose proof (Z.div_mod n 2 ltac:(done)).
  all: pose proof (Z.mod_pos_bound n 2 ltac:(done)); lia.
Qed.

Lemma median_of_medians_fuel_correct fuel arr k :
  (length arr < fuel)%nat →
  1 ≤ k ≤ Py.len arr →
  ∃ v, Py.sorted arr !! Z.to_nat (k - 1) = Some v
       ∧ median_of_medians_fuel fuel arr k = Return v.
Proof.
  revert arr k. induction fuel as [|fuel IH]; intros arr k Hfuel Hk; [lia|].
  simpl. destruct (Z.leb_spec (Py.len arr) 5) as [Hsmall|Hbig].
  { apply getitem_in_range. rewrite len_sorted. lia. }
  destruct (medians_facts arr Hbig)
    as (medians & -> & _ & Hsub & _ & Hshort & Hrank). simpl.
  destruct (IH medians (Py.len medians / 2 + 1)) as (pivot & Hpivot & ->);
    [lia | done |]. simpl.
  assert (pivot ∈ arr) as Hin.
  { by eapply Hsub, elem_of_sorted, list_elem_of_lookup_2. }
  rewrite partition_spec.
  pose proof (three_way_length pivot arr) as Hlen.
  pose proof (below_shorter pivot arr Hin).
  pose proof (above_shorter pivot arr Hin).
  destruct (Z.leb_spec k (Py.len (below pivot arr))).
  { rewrite (rank_in_below pivot) by lia. apply IH; lia. }
  destruct (Z.gtb_spec k (Py.len (below pivot arr) + Py.len (equal_to pivot arr))).
  { rewrite (rank_in_above pivot) by lia. apply IH; lia. }
  exists pivot. split; [|done]. apply rank_in_pivots. lia.
Qed.

(** ** median_of_medians on arbitrary ranks: totality and fuel *)

Lemma getitem_cases {A} (l : list A) i :
  (∃ x, Py.getitem l i = Return x ∧ x ∈ l) ∨ Py.getitem l i = Raise IndexError.
Proof.
  destruct (Py.getitem l i) as [x|[]| |] eqn:Hget; eauto using getitem_elem_of.
  all: unfold Py.getitem in Hget; repeat case_match; done.
Qed.

Lemma below_subseteq p arr : below p arr ⊆ arr.
Proof. intros x Hx. by apply list_elem_of_filter in Hx as [_ ?]. Qed.

Lemma above_subseteq p arr : above p arr ⊆ arr.
Proof. intros x Hx. by apply list_elem_of_filter in Hx as [_ ?]. Qed.

(** Whatever the rank, a run with one unit of fuel per element ends:
    it returns an element of [arr] or raises [IndexError]. *)
Lemma median_of_medians_fuel_total fuel arr k :
  (length arr < fuel)%nat →
  (∃ v, median_of_medians_fuel fuel arr k = Return v ∧ v ∈ arr)
  ∨ median_of_medians_fuel fuel arr k = Raise IndexError.
Proof.
  revert arr k. induction fuel as [|fuel IH]; intros arr k Hfuel; [lia|].
  simpl. destruct (Z.leb_spec (Py.len arr) 5) as [Hsmall|Hbig].
  { destruct (getitem_cases (Py.sorted arr) (k - 1)) as [(x & -> & Hx)| ->];
      [left; exists x; by rewrite <- elem_of_sorted | by right]. }
  destruct (medians_facts arr Hbig)
    as (medians & -> & _ & Hsub & _ & Hshort & Hrank). simpl.
  destruct (median_of_medians_fuel_correct fuel medians
              (Py.len medians / 2 + 1)) as (pivot & Hpivot & ->);
    [lia | done |]. simpl.
  assert (pivot ∈ arr) as Hin.
  { by eapply Hsub, elem_of_sorted, list_elem_of_lookup_2. }
  rewrite partition_spec.
  pose proof (below_shorter pivot arr Hin).
  pose proof (above_shorter pivot arr Hin).
  repeat case_match; [| |by eauto].
  - destruct (IH (below pivot arr) k) as [(v & -> & Hv)| ->];
      [lia | left; exists v; split; [done | by apply (below_subseteq pivot)]
       | by right].
  - destruct (IH (above pivot arr) (k - Py.len (below pivot arr)
                                      - Py.len (equal_to pivot arr)))
      as [(v & -> & Hv)| ->];
      [lia | left; exists v; split; [done | by apply (above_subseteq pivot)]
       | by right].
Qed.

(** Fuel beyond the length of the list changes nothing. *)
Lemma median_of_medians_fuel_indep fuel1 fuel2 arr k :
  (length arr < fuel1)%nat → (length arr < fuel2)%nat →
  median_of_medians_fuel fuel1 arr k = median_of_medians_fuel fuel2 arr k.
Proof.
  revert fuel2 arr k.
  induction fuel1 as [|fuel1 IH]; intros [|fuel2] arr k H1 H2; try lia.
  simpl. destruct (Z.leb_spec (Py.len arr) 5) as [Hsmall|Hbig]; [done|].
  destruct (medians_facts arr Hbig)
    as (medians & -> & _ & Hsub & _ & Hshort & Hrank). simpl.
  rewrite (IH fuel2 medians) by lia.
  destruct (median_of_medians_fuel_correct fuel2 medians
              (Py.len medians / 2 + 1)) as (pivot & Hpivot & ->);
    [lia | done |]. simpl.
  assert (pivot ∈ arr) as Hin.
  { by eapply Hsub, elem_of_sorted, list_elem_of_lookup_2. }
  rewrite partition_spec.
  pose proof (below_shorter pivot arr Hin).
  pose proof (above_shorter pivot arr Hin).
  repeat case_match; [apply IH; lia.. | done].
Qed.

Lemma median_of_medians_fuel_enough fuel arr k :
  (length arr < fuel)%nat →
  median_of_medians_fuel fuel arr k = median_of_medians arr k.
Proof. intros. apply median_of_medians_fuel_indep; lia. Qed.

(** A rank above the length always ends in [IndexError]. *)
Lemma median_of_medians_fuel_rank_too_large fuel arr k :
  (length arr < fuel)%nat → Py.len arr < k →
  median_of_medians_fuel fuel arr k = Raise IndexError.
Proof.
  revert arr k. induction fuel as [|fuel IH]; intros arr k Hfuel Hk; [lia|].
  simpl. destruct (Z.leb_spec (Py.len arr) 5) as [Hsmall|Hbig].
  { apply getitem_too_large. rewrite len_sorted. lia. }
  destruct (medians_facts arr Hbig)
    as (medians & -> & _ & Hsub & _ & Hshort & Hrank). simpl.
  destruct (median_of_medians_fuel_correct fuel medians
              (Py.len medians / 2 + 1)) as (pivot & Hpivot & ->);
    [lia | done |]. simpl.
  assert (pivot ∈ arr) as Hin.
  { by eapply Hsub, elem_of_sorted, list_elem_of_lookup_2. }
  rewrite partition_spec.
  pose proof (three_way_length pivot arr) as Hlen.
  pose proof (above_shorter pivot arr Hin).
  assert (0 ≤ Py.len (above pivot arr)) by (unfold Py.len; lia).
  assert (0 ≤ Py.len (equal_to pivot arr)) by (unfold Py.len; lia).
  destruct (Z.leb_spec k (Py.len (below pivot arr))); [lia|].
  destruct (Z.gtb_spec k (Py.len (below pivot arr)
                          + Py.len (equal_to pivot arr))); [|lia].
  apply IH; lia.
Qed.

(** ** randomized_quickselect *)

Lemma sorted_singleton x : Py.sorted [x] = [x].
Proof. apply sorted_unique; [repeat constructor | done]. Qed.

Section quickselect.
Context {G : Type} `{!RandomSource G}.
Implicit Types (g : G) (arr : list Z) (k : Z).

Lemma randint_in_range g a b :
  a ≤ b → ∃ i g', randint g a b = (Return i, g') ∧ a ≤ i ≤ b.
Proof.
  intros Hab. unfold randint. rewrite (proj2 (Z.leb_le a b) Hab).
  pose proof (draw_range g a b Hab) as Hi.
  destruct (draw g a b) as [i g']. by exists i, g'.
Qed.

Lemma randint_empty g a b : b < a → randint g a b = (Raise ValueError, g).
Proof. intros Hab. unfold randint. by rewrite (proj2 (Z.leb_gt a b) Hab). Qed.

(** The pivot of a list of two or more elements is one of them. *)
Lemma pivot_choice g arr :
  Py.len arr ≠ 1 → 1 ≤ Py.len arr →
  ∃ pivot_idx pivot g',
    randint g 0 (Py.len arr - 1) = (Return pivot_idx, g')
    ∧ Py.getitem arr pivot_idx = Return pivot
    ∧ pivot ∈ arr.
Proof.
  intros Hne Hlen.
  destruct (randint_in_range g 0 (Py.len arr - 1)) as (i & g' & Hi & Hr);
    [lia|].
  destruct (getitem_in_range arr i) as (pivot & Hp & Hget); [lia|].
  exists i, pivot, g'. split_and!; [done.. |].
  by eapply list_elem_of_lookup_2.
Qed.

Lemma randomized_quickselect_fuel_singleton fuel g x k :
  randomized_quickselect_fuel (S fuel) g [x] k = (Return x, g).
Proof. done. Qed.

Lemma randomized_quickselect_fuel_empty fuel g k :
  randomized_quickselect_fuel (S fuel) g [] k = (Raise ValueError, g).
Proof. done. Qed.

Lemma randomized_quickselect_fuel_correct fuel g arr k :
  (length arr < fuel)%nat →
  1 ≤ k ≤ Py.len arr →
  ∃ v g', Py.sorted arr !! Z.to_nat (k - 1) = Some v
          ∧ randomized_quickselect_fuel fuel g arr k = (Return v, g').
Proof.
  revert g arr k.
  induction fuel as [|fuel IH]; intros g arr k Hfuel Hk; [lia|].
  simpl. destruct (Z.eqb_spec (Py.len arr) 1) as [Hone|Hmore].
  { destruct arr as [|x [|y arr]]; [done | |];
      [|unfold Py.len in Hone; cbn [length] in Hone; lia].
    exists x, g. rewrite sorted_singleton.
    replace k with 1 by (unfold Py.len in Hk; cbn [length] in Hk; lia).
    done. }
  destruct (pivot_choice g arr) as (i & pivot & g' & -> & -> & Hin);
    [done | lia |].
  rewrite partition_spec.
  pose proof (three_way_length pivot arr) as Hlen.
  pose proof (below_shorter pivot arr Hin).
  pose proof (above_shorter pivot arr Hin).
  destruct (Z.leb_spec k (Py.len (below pivot arr))).
  { rewrite (rank_in_below pivot) by lia. apply IH; lia. }
  destruct (Z.gtb_spec k (Py.len (below pivot arr)
                          + Py.len (equal_to pivot arr))).
  { rewrite (rank_in_above pivot) by lia. apply IH; lia. }
  exists pivot, g'. split; [|done]. apply rank_in_pivots. lia.
Qed.

(** Whatever the rank, a run with one unit of fuel per element ends:
    it returns an element of [arr], or raises [ValueError] once the
    recursion has reached an empty list. *)
Lemma randomized_quickselect_fuel_total fuel g arr k :
  (length arr < fuel)%nat →
  ∃ g', (∃ v, randomized_quickselect_fuel fuel g arr k = (Return v, g')
              ∧ v ∈ arr)
        ∨ randomized_quickselect_fuel fuel g arr k = (Raise ValueError, g').
Proof.
  revert g arr k.
  induction fuel as [|fuel IH]; intros g arr k Hfuel; [lia|].
  destruct (decide (arr = [])) as [->|Hne].
  { exists g. right. apply randomized_quickselect_fuel_empty. }
  assert (1 ≤ Py.len arr) as Hlen
    by (destruct arr; [done | unfold Py.len; cbn [length]; lia]).
  simpl. destruct (Z.eqb_spec (Py.len arr) 1) as [Hone|Hmore].
  { destruct arr as [|x [|y arr]]; [done | |];
      [|unfold Py.len in Hone; cbn [length] in Hone; lia].
    exists g. left. exists x. split; [done | left]. }
  destruct (pivot_choice g arr) as (i & pivot & g' & -> & -> & Hin);
    [done.. |].
  rewrite partition_spec.
  pose proof (below_shorter pivot _ Hin).
  pose proof (above_shorter pivot _ Hin).
  repeat case_match.
  - destruct (IH g' (below pivot arr) k) as [g'' [(v & -> & Hv)| ->]];
      [lia | exists g''.. ]; [left; exists v | by right].
    split; [done | by apply (below_subseteq pivot)].
  - destruct (IH g' (above pivot arr)
                (k - Py.len (below pivot arr) - Py.len (equal_to pivot arr)))
      as [g'' [(v & -> & Hv)| ->]];
      [lia | exists g''.. ]; [left; exists v | by right].
    split; [done | by apply (above_subseteq pivot)].
  - exists g'. left. by exists pivot.
Qed.

(** Fuel beyond the length of the list changes nothing. *)
Lemma randomized_quickselect_fuel_indep fuel1 fuel2 g arr k :
  (length arr < fuel1)%nat → (length arr < fuel2)%nat →
  randomized_quickselect_fuel fuel1 g arr k
  = randomized_quickselect_fuel fuel2 g arr k.
Proof.
  revert fuel2 g arr k.
  induction fuel1 as [|fuel1 IH]; intros [|fuel2] g arr k H1 H2; try lia.
  destruct (decide (arr = [])) as [->|Hne].
  { by rewrite !randomized_quickselect_fuel_empty. }
  assert (1 ≤ Py.len arr) as Hlen
    by (destruct arr; [done | unfold Py.len; cbn [length]; lia]).
  simpl. destruct (Z.eqb_spec (Py.len arr) 1) as [Hone|Hmore]; [done|].
  destruct (pivot_choice g arr) as (i & pivot & g' & -> & -> & Hin);
    [done.. |].
  rewrite partition_spec.
  pose proof (below_shorter pivot _ Hin).
  pose proof (above_shorter pivot _ Hin).
  repeat case_match; [apply IH; lia.. | done].
Qed.

Lemma randomized_quickselect_fuel_enough fuel g arr k :
  (length arr < fuel)%nat →
  randomized_quickselect_fuel fuel g arr k = randomized_quickselect g arr k.
Proof. intros. apply randomized_quickselect_fuel_indep; lia. Qed.
End quickselect.

(** ** The selection claims *)

(** The scripted generator can play any sequence of in-range pivot indices. *)
Lemma scripted_draw_exact (g : list Z) i n :
  0 ≤ i < n → draw (i :: g) 0 (n - 1) = (i, g).
Proof.
  intros Hi. simpl. f_equal. rewrite Z.mod_small; lia.
Qed.

(** One level of [median_of_medians] on a list of more than five elements,
    stated for the fuel-free function. *)
Lemma median_of_medians_recursive arr k :
  5 < Py.len arr →
  ∃ medians pivot,
    group_medians arr = Return medians
    ∧ median_of_medians medians (Py.len medians / 2 + 1) = Return pivot
    ∧ Py.sorted medians !! Z.to_nat (Py.len medians / 2) = Some pivot
    ∧ pivot ∈ arr
    ∧ median_of_medians arr k =
        let '(left_, right_, pivot_count) := partition pivot arr in
        if k <=? Py.len left_ then median_of_medians left_ k
        else if k >? Py.len left_ + pivot_count
             then median_of_medians right_ (k - Py.len left_ - pivot_count)
             else Return pivot.
Proof.
  intros Hbig.
  destruct (medians_facts arr Hbig)
    as (medians & Hgm & _ & Hsub & _ & Hshort & Hrank).
  destruct (median_of_medians_fuel_correct (length arr) medians
              (Py.len medians / 2 + 1)) as (pivot & Hpivot & Hrec);
    [lia | done |].
  replace (Py.len medians / 2 + 1 - 1) with (Py.len medians / 2) in Hpivot
    by lia.
  assert (pivot ∈ arr) as Hin.
  { by eapply Hsub, elem_of_sorted, list_elem_of_lookup_2. }
  exists medians, pivot. split_and!; [done | | done | done |].
  { by rewrite <- (median_of_medians_fuel_enough (length arr)) by lia. }
  unfold median_of_medians at 1. simpl.
  rewrite (proj2 (Z.leb_gt _ _) Hbig), Hgm. simpl. rewrite Hrec. simpl.
  rewrite partition_spec.
  pose proof (below_shorter pivot arr Hin).
  pose proof (above_shorter pivot arr Hin).
  by rewrite !median_of_medians_fuel_enough by lia.
Qed.

(** C1: for every list and every rank [1 <= k <= len(arr)] (so the list is
    not empty; duplicates are allowed), [median_of_medians(arr, k)] returns
    [sorted(arr)[k - 1]], the k-th smallest element. *)
Theorem median_of_medians_kth_smallest arr k :
  1 ≤ k ≤ Py.len arr →
  ∃ v, Py.sorted arr !! Z.to_nat (k - 1) = Some v
       ∧ Py.getitem (Py.sorted arr) (k - 1) = Return v
       ∧ median_of_medians arr k = Return v.
Proof.
  intros Hk.
  destruct (median_of_medians_fuel_correct (S (length arr)) arr k)
    as (v & Hv & Hmom); [lia | done |].
  exists v. split_and!; [done | | done].
  apply getitem_lookup; [lia | done].
Qed.

Lemma median_of_medians_kth_smallest_witness :
  1 ≤ 4 ≤ Py.len [9; 3; 7; 1; 8; 2; 5]
  ∧ ∃ v, Py.sorted [9; 3; 7; 1; 8; 2; 5] !! Z.to_nat (4 - 1) = Some v
         ∧ Py.getitem (Py.sorted [9; 3; 7; 1; 8; 2; 5]) (4 - 1) = Return v
         ∧ median_of_medians [9; 3; 7; 1; 8; 2; 5] 4 = Return v.
Proof.
  split; [vm_compute; split; discriminate|].
  apply (median_of_medians_kth_smallest [9; 3; 7; 1; 8; 2; 5] 4).
  vm_compute; split; discriminate.
Defined.

(** C2: for every list, every rank [1 <= k <= len(arr)] and every random
    source, that is, whatever pivot index in [0, len) is drawn at each level,
    [randomized_quickselect(arr, k)] returns [sorted(arr)[k - 1]]. *)
Theorem randomized_quickselect_kth_smallest `{RandomSource G} (g : G) arr k :
  1 ≤ k ≤ Py.len arr →
  ∃ v, Py.sorted arr !! Z.to_nat (k - 1) = Some v
       ∧ Py.getitem (Py.sorted arr) (k - 1) = Return v
       ∧ (randomized_quickselect g arr k).1 = Return v.
Proof.
  intros Hk.
  destruct (randomized_quickselect_fuel_correct (S (length arr)) g arr k)
    as (v & g' & Hv & Hrq); [lia | done |].
  exists v. split_and!; [done | | by unfold randomized_quickselect; rewrite Hrq].
  apply getitem_lookup; [lia | done].
Qed.

Lemma randomized_quickselect_kth_smallest_witness :
  1 ≤ 4 ≤ Py.len [9; 3; 7; 1; 8; 2; 5]
  ∧ ∃ v, Py.sorted [9; 3; 7; 1; 8; 2; 5] !! Z.to_nat (4 - 1) = Some v
         ∧ Py.getitem (Py.sorted [9; 3; 7; 1; 8; 2; 5]) (4 - 1) = Return v
         ∧ (randomized_quickselect [6; 0; 2; 1] [9; 3; 7; 1; 8; 2; 5] 4).1
           = Return v.
Proof.
  split; [vm_compute; split; discriminate|].
  apply (randomized_quickselect_kth_smallest [6; 0; 2; 1]
           [9; 3; 7; 1; 8; 2; 5] 4).
  vm_compute; split; discriminate.
Defined.

(** Concrete runs: a seven-element list at rank 4, under three different
    pivot scripts for the randomized selector; a list of equal elements at
    every rank; and a list long enough for two levels of medians. *)
Example selection_scenarios :
  median_of_medians [9; 3; 7; 1; 8; 2; 5] 4 = Return 5
  ∧ (randomized_quickselect [0; 0; 0; 0; 0; 0] [9; 3; 7; 1; 8; 2; 5] 4).1
    = Return 5
  ∧ (randomized_quickselect [6; 5; 4; 3; 2; 1] [9; 3; 7; 1; 8; 2; 5] 4).1
    = Return 5
  ∧ (randomized_quickselect [] [9; 3; 7; 1; 8; 2; 5] 4).1 = Return 5
  ∧ median_of_medians [5; 5; 5; 5; 5] <$> [1; 2; 3; 4; 5]
    = Return <$> [5; 5; 5; 5; 5]
  ∧ median_of_medians (Z.of_nat <$> rev (seq 0 40)) 17 = Return 16.
Proof. by vm_compute. Qed.

(** C3, as stated, fails: [median_of_medians([3, 1, 2], 0)] raises nothing.
    The base case indexes [sorted(arr)] at [k - 1 = -1], which Python reads
    as the last element, so the call returns 3. *)
Lemma median_of_medians_rank_zero_returns :
  median_of_medians [3; 1; 2] 0 = Return 3
  ∧ ¬ ∃ e, median_of_medians [3; 1; 2] 0 = Raise e.
Proof. split; [by vm_compute | intros [e He]; by vm_compute in He]. Qed.

(** C3, amended: neither selector checks the rank.  An empty list fails
    whatever the rank, with [IndexError] from [median_of_medians] and
    [ValueError] from [randomized_quickselect]; [median_of_medians] raises
    [IndexError] whenever [k > len(arr)], as on [([3, 1, 2], 4)] and
    [([], 1)]; but [median_of_medians([3, 1, 2], 0)] returns 3. *)
Theorem selectors_do_not_validate_rank :
  (∀ k, median_of_medians [] k = Raise IndexError)
  ∧ (∀ (G : Type) (R : RandomSource G) (g : G) k,
       randomized_quickselect g [] k = (Raise ValueError, g))
  ∧ (∀ arr k, Py.len arr < k → median_of_medians arr k = Raise IndexError)
  ∧ median_of_medians [] 1 = Raise IndexError
  ∧ median_of_medians [3; 1; 2] 4 = Raise IndexError
  ∧ median_of_medians [3; 1; 2] 0 = Return 3.
Proof.
  split_and!; try by vm_compute.
  - intros k. unfold median_of_medians. simpl. apply getitem_empty.
  - intros arr k Hk. apply median_of_medians_fuel_rank_too_large; [lia | done].
Qed.

(** C4: for a pivot drawn from [arr], the partition loop yields
    [(left, right, pivot_count)] with
    [len(left) + pivot_count + len(right) = len(arr)], every element of
    [left] below the pivot, every element of [right] above it,
    [pivot_count] the number of elements equal to the pivot, and
    [pivot_count >= 1]. *)
Theorem partition_invariant pivot arr :
  pivot ∈ arr →
  ∃ left_ right_ pivot_count,
    partition pivot arr = (left_, right_, pivot_count)
    ∧ Py.len left_ + pivot_count + Py.len right_ = Py.len arr
    ∧ Forall (λ x, x < pivot) left_
    ∧ Forall (λ x, pivot < x) right_
    ∧ pivot_count = Py.len (filter (λ x, x = pivot) arr)
    ∧ 1 ≤ pivot_count.
Proof.
  intros Hin. exists (below pivot arr), (above pivot arr),
    (Py.len (equal_to pivot arr)).
  split_and!.
  - apply partition_spec.
  - pose proof (three_way_length pivot arr). lia.
  - apply Forall_forall. by intros x [? _]%list_elem_of_filter.
  - apply Forall_forall. by intros x [? _]%list_elem_of_filter.
  - done.
  - by apply equal_to_nonempty.
Qed.

Lemma partition_invariant_witness :
  5 ∈ [9; 5; 7; 1; 5; 2; 5]
  ∧ ∃ left_ right_ pivot_count,
      partition 5 [9; 5; 7; 1; 5; 2; 5] = (left_, right_, pivot_count)
      ∧ Py.len left_ + pivot_count + Py.len right_
        = Py.len [9; 5; 7; 1; 5; 2; 5]
      ∧ Forall (λ x, x < 5) left_
      ∧ Forall (λ x, 5 < x) right_
      ∧ pivot_count = Py.len (filter (λ x, x = 5) [9; 5; 7; 1; 5; 2; 5])
      ∧ 1 ≤ pivot_count.
Proof.
  split; [right; left|].
  apply (partition_invariant 5 [9; 5; 7; 1; 5; 2; 5]).
  right; left.
Defined.

(** C5: for a list and a rank [1 <= k <= len(arr)], the pair determines the
    result: there is one value that every run of [median_of_medians] returns,
    and that every run of [randomized_quickselect] returns too, whatever the
    random source and its state, hence whatever pivots are drawn. *)
Theorem selectors_value_deterministic arr k :
  1 ≤ k ≤ Py.len arr →
  ∃ v,
    (∀ fuel, (length arr < fuel)%nat →
       median_of_medians_fuel fuel arr k = Return v)
    ∧ median_of_medians arr k = Return v
    ∧ (∀ (G1 G2 : Type) (R1 : RandomSource G1) (R2 : RandomSource G2)
         (g1 : G1) (g2 : G2),
         (randomized_quickselect g1 arr k).1 = Return v
         ∧ (randomized_quickselect g1 arr k).1
           = (randomized_quickselect g2 arr k).1).
Proof.
  intros Hk.
  destruct (median_of_medians_fuel_correct (S (length arr)) arr k)
    as (v & Hv & Hmom); [lia | done |].
  exists v. split_and!; [| done |].
  - intros fuel Hfuel. by rewrite median_of_medians_fuel_enough.
  - intros G1 ? G2 ? g1 g2. unfold randomized_quickselect.
    destruct (randomized_quickselect_fuel_correct (S (length arr)) g1 arr k)
      as (v1 & g1' & Hv1 & ->); [lia | done |].
    destruct (randomized_quickselect_fuel_correct (S (length arr)) g2 arr k)
      as (v2 & g2' & Hv2 & ->); [lia | done |].
    simpl. split; congruence.
Qed.

Lemma selectors_value_deterministic_witness :
  1 ≤ 2 ≤ Py.len [4; 1; 4; 2; 8; 2; 6]
  ∧ ∃ v,
      (∀ fuel, (length [4; 1; 4; 2; 8; 2; 6] < fuel)%nat →
         median_of_medians_fuel fuel [4; 1; 4; 2; 8; 2; 6] 2 = Return v)
      ∧ median_of_medians [4; 1; 4; 2; 8; 2; 6] 2 = Return v
      ∧ (∀ (G1 G2 : Type) (R1 : RandomSource G1) (R2 : RandomSource G2)
         (g1 : G1) (g2 : G2),
           (randomized_quickselect g1 [4; 1; 4; 2; 8; 2; 6] 2).1 = Return v
           ∧ (randomized_quickselect g1 [4; 1; 4; 2; 8; 2; 6] 2).1
             = (randomized_quickselect g2 [4; 1; 4; 2; 8; 2; 6] 2).1).
Proof.
  split; [vm_compute; split; discriminate|].
  apply (selectors_value_deterministic [4; 1; 4; 2; 8; 2; 6] 2).
  vm_compute; split; discriminate.
Defined.

Lemma groups_lookup arr (j : nat) group :
  groups arr !! j = Some group → group = take 5 (drop (5 * j) arr).
Proof.
  unfold groups. rewrite range_five, !list_lookup_fmap.
  destruct (seq 0 _ !! j) as [i|] eqn:Hi; [|done].
  apply lookup_seq in Hi as [-> _]. simpl. intros [= <-].
  rewrite group_at_eq. do 2 f_equal. lia.
Qed.

(** C6: a list of at most five elements is answered from the sorted list,
    at position [k - 1].  A longer list is cut into consecutive groups of at
    most five elements; the median of a group is the element of the sorted
    group at index [len(group) // 2]; there are [ceil(len(arr) / 5)] medians;
    and the pivot is the result of the recursive call on the medians at rank
    [len(medians) // 2 + 1], the upper median when their number is even. *)
Theorem median_of_medians_structure arr k :
  (Py.len arr ≤ 5
   ∧ median_of_medians arr k = Py.getitem (Py.sorted arr) (k - 1))
  ∨ (5 < Py.len arr
     ∧ concat (groups arr) = arr
     ∧ Forall (λ group, 1 ≤ length group ≤ 5)%nat (groups arr)
     ∧ (∀ (j : nat) group,
          groups arr !! j = Some group → group = take 5 (drop (5 * j) arr))
     ∧ ∃ medians pivot,
         group_medians arr = Return medians
         ∧ Forall2 is_median_of (groups arr) medians
         ∧ 5 * (Py.len medians - 1) < Py.len arr ≤ 5 * Py.len medians
         ∧ median_of_medians medians (Py.len medians / 2 + 1) = Return pivot
         ∧ Py.sorted medians !! Z.to_nat (Py.len medians / 2) = Some pivot
         ∧ median_of_medians arr k =
             let '(left_, right_, pivot_count) := partition pivot arr in
             if k <=? Py.len left_ then median_of_medians left_ k
             else if k >? Py.len left_ + pivot_count
                  then median_of_medians right_
                         (k - Py.len left_ - pivot_count)
                  else Return pivot).
Proof.
  destruct (Z.leb_spec (Py.len arr) 5) as [Hsmall|Hbig].
  { left. split; [done|]. unfold median_of_medians. simpl.
    by rewrite (proj2 (Z.leb_le _ _) Hsmall). }
  right. split_and!;
    [done | apply concat_groups | apply groups_size | apply groups_lookup |].
  destruct (median_of_medians_recursive arr k Hbig)
    as (medians & pivot & Hgm & Hrec & Hpivot & _ & Hunfold).
  destruct (medians_facts arr Hbig)
    as (medians' & Hgm' & HF & _ & Hcount & _).
  assert (medians' = medians) as -> by congruence.
  exists medians, pivot. split_and!; try done.
  all: unfold Py.len; rewrite Hcount.
  all: pose proof (Nat.div_mod (length arr + 4) 5 ltac:(done)) as Hq.
  all: pose proof (Nat.mod_upper_bound (length arr + 4) 5 ltac:(done)) as Hr.
  all: lia.
Qed.

(** C7: for a list and a rank [1 <= k <= len(arr)], both selectors end with
    a result once given one unit of fuel per element, so their recursion is
    well founded: more than five elements have fewer medians than elements,
    and a pivot taken from the list is counted at least once and leaves both
    sides strictly shorter than the list. *)
Theorem selectors_terminate arr k :
  1 ≤ k ≤ Py.len arr →
  (∀ fuel, (length arr < fuel)%nat →
     ∃ v, median_of_medians_fuel fuel arr k = Return v)
  ∧ (∀ (G : Type) (R : RandomSource G) (g : G) fuel,
       (length arr < fuel)%nat →
       ∃ v g', randomized_quickselect_fuel fuel g arr k = (Return v, g'))
  ∧ (5 < Py.len arr →
     ∃ medians, group_medians arr = Return medians
                ∧ (length medians < length arr)%nat)
  ∧ (∀ pivot, pivot ∈ arr →
       ∃ left_ right_ pivot_count,
         partition pivot arr = (left_, right_, pivot_count)
         ∧ 1 ≤ pivot_count
         ∧ (length left_ < length arr)%nat
         ∧ (length right_ < length arr)%nat).
Proof.
  intros Hk. split_and!.
  - intros fuel Hfuel.
    destruct (median_of_medians_fuel_correct fuel arr k) as (v & _ & ->);
      eauto.
  - intros G R g fuel Hfuel.
    destruct (randomized_quickselect_fuel_correct fuel g arr k)
      as (v & g' & _ & ->); eauto.
  - intros Hbig.
    destruct (medians_facts arr Hbig) as (medians & ? & _ & _ & _ & ? & _).
    eauto.
  - intros pivot Hin. rewrite partition_spec.
    eexists _, _, _. split; [done|].
    split_and!; [by apply equal_to_nonempty | by apply below_shorter
                | by apply above_shorter].
Qed.

Lemma selectors_terminate_witness :
  1 ≤ 6 ≤ Py.len [9; 3; 7; 1; 8; 2; 5]
  ∧ (∀ fuel, (length [9; 3; 7; 1; 8; 2; 5] < fuel)%nat →
       ∃ v, median_of_medians_fuel fuel [9; 3; 7; 1; 8; 2; 5] 6 = Return v)
  ∧ (∀ (G : Type) (R : RandomSource G) (g : G) fuel,
       (length [9; 3; 7; 1; 8; 2; 5] < fuel)%nat →
       ∃ v g',
         randomized_quickselect_fuel fuel g [9; 3; 7; 1; 8; 2; 5] 6
         = (Return v, g'))
  ∧ (5 < Py.len [9; 3; 7; 1; 8; 2; 5] →
     ∃ medians, group_medians [9; 3; 7; 1; 8; 2; 5] = Return medians
                ∧ (length medians < length [9; 3; 7; 1; 8; 2; 5])%nat)
  ∧ (∀ pivot, pivot ∈ [9; 3; 7; 1; 8; 2; 5] →
       ∃ left_ right_ pivot_count,
         partition pivot [9; 3; 7; 1; 8; 2; 5]
         = (left_, right_, pivot_count)
         ∧ 1 ≤ pivot_count
         ∧ (length left_ < length [9; 3; 7; 1; 8; 2; 5])%nat
         ∧ (length right_ < length [9; 3; 7; 1; 8; 2; 5])%nat).
Proof.
  split; [vm_compute; split; discriminate|].
  apply (selectors_terminate [9; 3; 7; 1; 8; 2; 5] 6).
  vm_compute; split; discriminate.
Defined.

(** C9: on a one-element list [randomized_quickselect] returns the element
    whatever the rank, valid or not: the base case looks at the length only
    and draws nothing from the random source. *)
Theorem randomized_quickselect_singleton_any_rank :
  ∀ (G : Type) (R : RandomSource G) (g : G) (x k : Z),
    randomized_quickselect g [x] k = (Return x, g).
Proof. intros. apply randomized_quickselect_fuel_singleton. Qed.

(** ** Stack and Queue *)

Section containers.
Context {A : Type}.

Lemma getitem_last (l : list A) x : Py.getitem (l ++ [x]) (-1) = Return x.
Proof.
  destruct (getitem_negative (l ++ [x]) (-1)) as (y & Hy & ->).
  { unfold Py.len. rewrite length_app. simpl. lia. }
  f_equal. unfold Py.len in Hy. rewrite length_app in Hy. simpl in Hy.
  replace (Z.to_nat (Z.of_nat (length l + 1) + -1)) with (length l + 0)%nat
    in Hy by lia.
  rewrite lookup_app_r, Nat.add_0_r, Nat.sub_diag in Hy by lia.
  by injection Hy.
Qed.

Lemma stack_is_empty_nil (s : Stack.t A) :
  Stack.is_empty s = true ↔ Stack.items s = [].
Proof.
  unfold Stack.is_empty, Py.len. rewrite Z.eqb_eq. split.
  - intros Hlen. apply nil_length_inv. lia.
  - by intros ->.
Qed.

Lemma queue_is_empty_nil (q : Queue.t A) :
  Queue.is_empty q = true ↔ Queue.items q = [].
Proof.
  unfold Queue.is_empty, Py.len. rewrite Z.eqb_eq. split.
  - intros Hlen. apply nil_length_inv. lia.
  - by intros ->.
Qed.

Lemma stack_pop_snoc (rest : list A) x :
  Stack.pop {| Stack.items := rest ++ [x] |}
  = (Return x, {| Stack.items := rest |}).
Proof.
  unfold Stack.pop.
  destruct (Stack.is_empty _) eqn:Hempty.
  { apply stack_is_empty_nil in Hempty. by destruct rest. }
  simpl. rewrite getitem_last. do 2 f_equal.
  apply take_app_length'. rewrite length_app. simpl. lia.
Qed.

Lemma stack_peek_snoc (rest : list A) x :
  Stack.peek {| Stack.items := rest ++ [x] |} = Return x.
Proof.
  unfold Stack.peek.
  destruct (Stack.is_empty _) eqn:Hempty.
  { apply stack_is_empty_nil in Hempty. by destruct rest. }
  simpl. apply getitem_last.
Qed.

Lemma queue_items_enqueue_all (q : Queue.t A) xs :
  Queue.items (foldl Queue.enqueue q xs) = Queue.items q ++ xs.
Proof.
  revert q. induction xs as [|x xs IH]; intros q; simpl.
  - by rewrite app_nil_r.
  - rewrite IH. simpl. by rewrite <- app_assoc.
Qed.

(** C8: on an empty stack [pop] and [peek] raise, and on an empty queue
    [dequeue] and [peek] raise ([IndexError] is the error the classes use for
    an empty collection); on a non-empty one they return, the stack answering
    with the element pushed last and the queue with the element enqueued
    first.  So each of the four succeeds exactly when the structure is not
    empty. *)
Theorem containers_empty_access :
  (∀ s : Stack.t A,
     Stack.is_empty s = true →
     Stack.pop s = (Raise IndexError, s) ∧ Stack.peek s = Raise IndexError)
  ∧ (∀ s : Stack.t A,
       Stack.is_empty s = false →
       ∃ rest x, Stack.items s = rest ++ [x]
                 ∧ Stack.pop s = (Return x, {| Stack.items := rest |})
                 ∧ Stack.peek s = Return x)
  ∧ (∀ (s : Stack.t A) x,
       Stack.pop (Stack.push s x) = (Return x, s)
       ∧ Stack.peek (Stack.push s x) = Return x)
  ∧ (∀ q : Queue.t A,
       Queue.is_empty q = true →
       Queue.dequeue q = (Raise IndexError, q)
       ∧ Queue.peek q = Raise IndexError)
  ∧ (∀ q : Queue.t A,
       Queue.is_empty q = false →
       ∃ x rest, Queue.items q = x :: rest
                 ∧ Queue.dequeue q = (Return x, {| Queue.items := rest |})
                 ∧ Queue.peek q = Return x)
  ∧ (∀ (x : A) xs,
       Queue.dequeue (foldl Queue.enqueue Queue.init (x :: xs))
       = (Return x, foldl Queue.enqueue Queue.init xs)
       ∧ Queue.peek (foldl Queue.enqueue Queue.init (x :: xs)) = Return x).
Proof.
  split_and!.
  - intros s Hempty. unfold Stack.pop, Stack.peek. by rewrite Hempty.
  - intros [items] Hempty.
    destruct items as [|x rest _] using rev_ind; [done|].
    exists rest, x. by rewrite stack_pop_snoc, stack_peek_snoc.
  - intros [items] x. unfold Stack.push. simpl.
    by rewrite stack_pop_snoc, stack_peek_snoc.
  - intros q Hempty. unfold Queue.dequeue, Queue.peek. by rewrite Hempty.
  - intros [[|x rest]] Hempty; [done|]. by exists x, rest.
  - intros x xs.
    pose proof (queue_items_enqueue_all Queue.init (x :: xs)) as Hall.
    pose proof (queue_items_enqueue_all Queue.init xs) as Hrest.
    destruct (foldl Queue.enqueue Queue.init (x :: xs)) as [items].
    destruct (foldl Queue.enqueue Queue.init xs) as [items'].
    simpl in *. by subst.
Qed.
End containers.

(** ** LinkedList *)

Section linked_list_facts.
Context {A : Type} `{EqDecision A}.

Local Abbreviation Node := (LinkedList.Node A).
Local Abbreviation chain := LinkedList.chain.
Local Abbreviation remove_first := LinkedList.remove_first.
Local Abbreviation mk_node := LinkedList.Build_Node.

Implicit Types (h : gmap LinkedList.loc Node) (p : option LinkedList.loc).
Implicit Types (l : LinkedList.loc) (ls : list LinkedList.loc).
Implicit Types (xs : list A) (d x : A).

Lemma chain_length h p ls xs : chain h p ls xs → length ls = length xs.
Proof. induction 1; simpl; congruence. Qed.

Lemma chain_dom h p ls xs l : chain h p ls xs → l ∈ ls → is_Some (h !! l).
Proof.
  induction 1 as [|l' x nx ls xs Hl' _ IH]; intros Hin; [by inv Hin|].
  apply elem_of_cons in Hin as [->|Hin]; eauto.
Qed.

Lemma chain_det h p ls xs ls' xs' :
  chain h p ls xs → chain h p ls' xs' → ls = ls' ∧ xs = xs'.
Proof.
  intros Hc. revert ls' xs'.
  induction Hc as [|l x nx ls xs Hl _ IH]; intros ls' xs' Hc'; inv Hc';
    [done|].
  simplify_eq. destruct (IH _ _ ltac:(eassumption)) as [-> ->]. done.
Qed.

(** From any node of a chain onwards there is a chain again, no longer
    than the whole. *)
Lemma chain_from h p ls xs l :
  chain h p ls xs → l ∈ ls →
  ∃ ls' xs', chain h (Some l) ls' xs' ∧ (length ls' ≤ length ls)%nat.
Proof.
  induction 1 as [|l' x nx ls xs Hl' Hc IH]; intros Hin; [by inv Hin|].
  apply elem_of_cons in Hin as [->|Hin].
  - exists (l' :: ls), (x :: xs). split; [by econstructor | done].
  - destruct IH as (ls' & xs' & Hc' & Hlen); [done|].
    exists ls', xs'. split; [done | simpl; lia].
Qed.

(** A chain ends, so it visits no node twice. *)
Lemma chain_NoDup h p ls xs : chain h p ls xs → NoDup ls.
Proof.
  induction 1 as [|l x nx ls xs Hl Hc IH]; constructor; [|done].
  intros Hin.
  destruct (chain_from _ _ _ _ _ Hc Hin) as (ls' & xs' & Hc' & Hlen).
  destruct (chain_det _ _ _ _ _ _ Hc' (LinkedList.chain_cons _ _ _ _ _ _ Hl Hc))
    as [-> _].
  simpl in Hlen. lia.
Qed.

(** Writing to a node outside a chain leaves the chain as it is. *)
Lemma chain_insert_outside h p ls xs l (n : Node) :
  chain h p ls xs → l ∉ ls → chain (<[l := n]> h) p ls xs.
Proof.
  induction 1 as [|l' x nx ls xs Hl' _ IH]; intros Hout; [constructor|].
  apply not_elem_of_cons in Hout as [Hne Hout].
  econstructor; [by rewrite lookup_insert_ne | by apply IH].
Qed.

Lemma chain_size h p ls xs : chain h p ls xs → (length ls ≤ size h)%nat.
Proof.
  intros Hc. pose proof (chain_NoDup _ _ _ _ Hc) as Hnd.
  rewrite <- size_dom, <- (size_list_to_set (C := gset LinkedList.loc)) by done.
  apply subseteq_size. intros l Hl%elem_of_list_to_set.
  apply elem_of_dom. by eapply chain_dom.
Qed.

Lemma traverse_loop_chain fuel h p ls xs elements :
  chain h p ls xs → (length ls ≤ fuel)%nat →
  LinkedList.traverse_loop fuel h p elements = Return (elements ++ xs).
Proof.
  intros Hc. revert fuel elements.
  induction Hc as [|l x nx ls xs Hl _ IH]; intros fuel elements Hfuel.
  { destruct fuel; simpl; by rewrite app_nil_r. }
  destruct fuel as [|fuel]; simpl in *; [lia|].
  rewrite Hl. simpl. rewrite IH by lia. by rewrite <- app_assoc.
Qed.

Lemma traverse_represents (self : LinkedList.t A) xs :
  LinkedList.represents self xs → LinkedList.traverse self = Return xs.
Proof.
  intros [ls Hc]. unfold LinkedList.traverse.
  erewrite traverse_loop_chain; [done | done | by eapply chain_size].
Qed.

Lemma insert_head_represents (self : LinkedList.t A) xs d :
  LinkedList.represents self xs →
  LinkedList.represents (LinkedList.insert_head self d) (d :: xs).
Proof.
  intros [ls Hc]. unfold LinkedList.insert_head, LinkedList.represents. simpl.
  set (l := fresh (dom (LinkedList.heap self))).
  assert (l ∉ ls) as Hfresh.
  { intros Hin. apply (is_fresh (dom (LinkedList.heap self))).
    apply elem_of_dom. by eapply chain_dom. }
  exists (l :: ls). econstructor; [apply lookup_insert_eq|].
  by apply chain_insert_outside.
Qed.

Lemma remove_first_absent d xs : d ∉ xs → remove_first d xs = xs.
Proof.
  induction xs as [|x xs IH]; [done|].
  intros [Hne Hout]%not_elem_of_cons. simpl.
  case_decide; [congruence | by rewrite IH].
Qed.

Lemma remove_first_present d xs1 xs2 :
  d ∉ xs1 → remove_first d (xs1 ++ d :: xs2) = xs1 ++ xs2.
Proof.
  induction xs1 as [|x xs1 IH]; simpl.
  - intros _. by case_decide.
  - intros [Hne Hout]%not_elem_of_cons.
    case_decide; [congruence | by rewrite IH].
Qed.

(** The walk of [delete] from a node [cur] that does not carry [d], and the
    unlinking that follows it: the chain behind [cur] loses the first node
    carrying [d], if there is one, and nothing outside the chain changes. *)
Lemma delete_walk_spec fuel h cur x nx ls xs d :
  h !! cur = Some (mk_node x nx) →
  chain h nx ls xs →
  cur ∉ ls →
  (length ls < fuel)%nat →
  ∃ cur' h' ls',
    LinkedList.delete_walk fuel h cur d = Return cur'
    ∧ LinkedList.unlink_next h cur' = Return h'
    ∧ chain h' (Some cur) (cur :: ls') (x :: remove_first d xs)
    ∧ (∀ l, l ∉ cur :: ls → h' !! l = h !! l)
    ∧ (d ∉ xs → h' = h).
Proof.
  revert cur x nx ls xs.
  induction fuel as [|fuel IH]; intros cur x nx ls xs Hcur Hc Hout Hfuel; [lia|].
  simpl. rewrite Hcur. simpl.
  inversion Hc as [|n y nx' ls0 xs0 Hn Hc0]; subst.
  { exists cur, h, []. unfold LinkedList.unlink_next. rewrite Hcur. simpl.
    split_and!; [done | done | by repeat econstructor | done | done]. }
  rewrite Hn. simpl.
  apply not_elem_of_cons in Hout as [Hne Hout].
  destruct (decide (y ≠ d)) as [Hyd|Hyd].
  - pose proof (chain_NoDup _ _ _ _ Hc) as [Hn0 _]%NoDup_cons.
    destruct (IH n y nx' ls0 xs0 Hn Hc0 Hn0)
      as (cur' & h' & ls' & Hwalk & Hunlink & Hc' & Hframe & Hsame);
      [simpl in Hfuel; lia|].
    exists cur', h', (n :: ls'). split_and!; [done | done | | |].
    + rewrite decide_False by done.
      econstructor; [|done]. rewrite Hframe; [done|].
      intros Hin. apply elem_of_cons in Hin as [->|Hin]; done.
    + intros l Hl. apply Hframe. intros Hin. apply Hl. by right.
    + intros [_ Hd]%not_elem_of_cons. by apply Hsame.
  - apply dec_stable in Hyd as ->.
    exists cur, (<[cur := mk_node x nx']> h), ls0.
    unfold LinkedList.unlink_next. rewrite Hcur. simpl. rewrite Hn. simpl.
    split_and!; [done | done | | |].
    + rewrite decide_True by done.
      econstructor; [apply lookup_insert_eq | by apply chain_insert_outside].
    + intros l [Hl _]%not_elem_of_cons. by rewrite lookup_insert_ne.
    + intros [Hd _]%not_elem_of_cons. done.
Qed.

Lemma delete_represents (self : LinkedList.t A) xs d :
  LinkedList.represents self xs →
  ∃ self', LinkedList.delete self d = Return self'
           ∧ LinkedList.represents self' (remove_first d xs)
           ∧ (d ∉ xs → self' = self).
Proof.
  destruct self as [h hd]. intros [ls Hc]. simpl in Hc.
  unfold LinkedList.delete, LinkedList.delete_fuel.
  cbn [LinkedList.head LinkedList.heap].
  inversion Hc as [|l x nx ls0 xs0 Hl Hc0]; subst.
  { eexists. split_and!; [done | by exists [] | done]. }
  rewrite Hl. cbn [LinkedList.data LinkedList.next remove_first].
  case_decide as Hxd.
  { eexists. split_and!; [done | by exists ls0 |].
    by intros [? _]%not_elem_of_cons. }
  pose proof (chain_NoDup _ _ _ _ Hc) as [Hout _]%NoDup_cons.
  pose proof (chain_size _ _ _ _ Hc) as Hsize. simpl in Hsize.
  destruct (delete_walk_spec (S (size h)) h l x nx ls0 xs0 d Hl Hc0 Hout)
    as (cur' & h' & ls' & Hwalk & Hunlink & Hc' & _ & Hsame); [lia|].
  rewrite Hwalk. simpl. rewrite Hunlink. simpl.
  eexists. split_and!; [done | by exists (l :: ls') |].
  intros [_ Hd]%not_elem_of_cons. by rewrite Hsame.
Qed.

(** Every state a client can build holds a well-formed chain. *)
Lemma reachable_represents (self : LinkedList.t A) :
  LinkedList.reachable self → ∃ xs, LinkedList.represents self xs.
Proof.
  induction 1 as [|self d _ [xs IH]|self self' d _ [xs IH] Hdel].
  - exists []. exists []. constructor.
  - exists (d :: xs). by apply insert_head_represents.
  - destruct (delete_represents self xs d IH) as (self'' & Hdel' & Hrep & _).
    exists (remove_first d xs). congruence.
Qed.
End linked_list_facts.

(** C10: on any list a client can build, [delete(d)] raises nothing.  If
    [d] is not in the list (the empty list included) [traverse()] returns the
    same sequence after the call as before it; if it is, exactly the first
    node carrying [d] is gone and the other elements keep their order. *)
Theorem linked_list_delete {A : Type} `{EqDecision A}
    (self : LinkedList.t A) (d : A) :
  LinkedList.reachable self →
  ∃ xs self',
    LinkedList.traverse self = Return xs
    ∧ LinkedList.delete self d = Return self'
    ∧ LinkedList.reachable self'
    ∧ LinkedList.traverse self' = Return (LinkedList.remove_first d xs)
    ∧ (d ∉ xs → self' = self ∧ LinkedList.traverse self' = Return xs)
    ∧ (∀ xs1 xs2,
         xs = xs1 ++ d :: xs2 → d ∉ xs1 →
         LinkedList.traverse self' = Return (xs1 ++ xs2)).
Proof.
  intros Hreach.
  destruct (reachable_represents self Hreach) as [xs Hrep].
  destruct (delete_represents self xs d Hrep)
    as (self' & Hdel & Hrep' & Hsame).
  exists xs, self'.
  split_and!; [by apply traverse_represents | done | | | |].
  - by eapply LinkedList.reachable_delete.
  - by apply traverse_represents.
  - intros Hout. split; [by apply Hsame|].
    rewrite <- (remove_first_absent d xs) by done.
    by apply traverse_represents.
  - intros xs1 xs2 -> Hout. rewrite <- (remove_first_present d xs1 xs2) by done.
    by apply traverse_represents.
Qed.

Lemma linked_list_delete_witness :
  let self :=
    LinkedList.insert_head
      (LinkedList.insert_head
         (LinkedList.insert_head
            (LinkedList.insert_head LinkedList.init 1) 2) 1) 3 in
  LinkedList.reachable self
  ∧ ∃ xs self',
      LinkedList.traverse self = Return xs
      ∧ LinkedList.delete self 1 = Return self'
      ∧ LinkedList.reachable self'
      ∧ LinkedList.traverse self' = Return (LinkedList.remove_first 1 xs)
      ∧ (1 ∉ xs → self' = self ∧ LinkedList.traverse self' = Return xs)
      ∧ (∀ xs1 xs2,
           xs = xs1 ++ 1 :: xs2 → 1 ∉ xs1 →
           LinkedList.traverse self' = Return (xs1 ++ xs2)).
Proof.
  intros self.
  assert (LinkedList.reachable self) as Hreach.
  { repeat apply LinkedList.reachable_insert_head.
    apply LinkedList.reachable_init. }
  split; [exact Hreach|].
  exact (linked_list_delete self 1 Hreach).
Defined.

(** The scenarios of the module's own test: [peek] on a stack after
    [push(1)], [push(2)], [peek] on a queue after [enqueue(1)],
    [enqueue(2)], and [traverse] after [insert_head(1)], [insert_head(2)]. *)
Example main_scenarios :
  Stack.peek (Stack.push (Stack.push Stack.init 1) 2) = Return 2
  ∧ Queue.peek (Queue.enqueue (Queue.enqueue Queue.init 1) 2) = Return 1
  ∧ LinkedList.traverse
      (LinkedList.insert_head (LinkedList.insert_head LinkedList.init 1) 2)
    = Return [2; 1].
Proof. by vm_compute. Qed.

(** * Further properties of the selectors *)

Lemma length_filter_mono (P Q : Z → Prop)
    `{∀ x, Decision (P x)} `{∀ x, Decision (Q x)} (l : list Z) :
  (∀ x, P x → Q x) → (length (filter P l) ≤ length (filter Q l))%nat.
Proof.
  intros HPQ. induction l as [|x l IH]; [done|].
  rewrite !filter_cons. repeat case_decide; simpl; try lia.
  exfalso; eauto.
Qed.

Lemma length_filter_all (P : Z → Prop) `{∀ x, Decision (P x)} (l : list Z) :
  length (filter P l) = length l → Forall P l.
Proof.
  induction l as [|x l IH]; [done|].
  rewrite filter_cons. pose proof (length_filter P l).
  case_decide; simpl; intros Hlen; [|lia].
  constructor; [done | apply IH; lia].
Qed.

Lemma length_filter_none (P : Z → Prop) `{∀ x, Decision (P x)} (l : list Z) :
  length (filter P l) = 0%nat → Forall (λ x, ¬ P x) l.
Proof.
  induction l as [|x l IH]; [done|].
  rewrite filter_cons. case_decide; simpl; intros Hlen; [lia|].
  constructor; [done | by apply IH].
Qed.

Lemma length_filter_le_split v arr :
  length (filter (λ x, x ≤ v) arr)
  = (length (below v arr) + length (equal_to v arr))%nat.
Proof.
  unfold below, equal_to. induction arr as [|x arr IH]; [done|].
  rewrite !filter_cons. repeat case_decide; simpl; lia.
Qed.

(** The index of a value in the sorted list lies between the number of
    smaller elements and the number of elements that are not larger. *)
Lemma sorted_lookup_rank arr (n : nat) v :
  Py.sorted arr !! n = Some v →
  (length (below v arr) ≤ n < length (filter (λ x, (x ≤ v)%Z) arr))%nat.
Proof.
  rewrite length_filter_le_split, (sorted_lookup_three_way v). simpl.
  repeat case_decide; [| lia |].
  - intros Hv%list_elem_of_lookup_2%elem_of_sorted%list_elem_of_filter. lia.
  - intros Hv%list_elem_of_lookup_2%elem_of_sorted%list_elem_of_filter. lia.
Qed.

Lemma sorted_lookup_mono arr (i j : nat) x y :
  (i ≤ j)%nat →
  Py.sorted arr !! i = Some x → Py.sorted arr !! j = Some y → x ≤ y.
Proof.
  pose proof (sorted_StronglySorted arr) as Hs. revert i j.
  induction Hs as [|a l _ IH Hall]; intros [|i] [|j] Hij Hx Hy;
    simplify_eq/=; try lia.
  - rewrite Forall_forall in Hall. by eapply Hall, list_elem_of_lookup_2.
  - eapply IH; [|done..]. lia.
Qed.

(** X1: Every run of [median_of_medians], at any rank, ends after at most one
    nested call per element: it returns an element of the list or raises
    [IndexError]; it never raises [ValueError] and never makes up a value. *)
Theorem median_of_medians_outcomes arr k :
  ((∃ v, median_of_medians arr k = Return v ∧ v ∈ arr)
   ∨ median_of_medians arr k = Raise IndexError)
  ∧ (∀ fuel, (length arr < fuel)%nat →
       median_of_medians_fuel fuel arr k = median_of_medians arr k).
Proof.
  split.
  - apply median_of_medians_fuel_total. lia.
  - intros fuel Hfuel. by apply median_of_medians_fuel_enough.
Qed.

(** X2: Every run of [randomized_quickselect], at any rank and with any random
    source, ends after at most one nested call per element: it returns an
    element of the list, or raises [ValueError] when the recursion reaches an
    empty list; it never raises [IndexError]. *)
Theorem randomized_quickselect_outcomes `{RandomSource G} (g : G) arr k :
  (∃ g', (∃ v, randomized_quickselect g arr k = (Return v, g') ∧ v ∈ arr)
         ∨ randomized_quickselect g arr k = (Raise ValueError, g'))
  ∧ (∀ fuel, (length arr < fuel)%nat →
       randomized_quickselect_fuel fuel g arr k
       = randomized_quickselect g arr k).
Proof.
  split.
  - apply randomized_quickselect_fuel_total. lia.
  - intros fuel Hfuel. by apply randomized_quickselect_fuel_enough.
Qed.

(** X3: The value both selectors return at a valid rank [k] is the element [v]
    of the list with fewer than [k] elements below it and at least [k]
    elements not above it, and it is the only element of the list with that
    property. *)
Theorem selectors_rank_characterisation `{RandomSource G} (g : G) arr k :
  1 ≤ k ≤ Py.len arr →
  ∃ v,
    median_of_medians arr k = Return v
    ∧ (randomized_quickselect g arr k).1 = Return v
    ∧ v ∈ arr
    ∧ Py.len (filter (λ x, x < v) arr) < k ≤ Py.len (filter (λ x, x ≤ v) arr)
    ∧ (∀ w,
         Py.len (filter (λ x, x < w) arr) < k
           ≤ Py.len (filter (λ x, x ≤ w) arr) →
         w = v).
Proof.
  intros Hk.
  destruct (median_of_medians_fuel_correct (S (length arr)) arr k)
    as (v & Hv & Hmom); [lia | done |].
  destruct (randomized_quickselect_fuel_correct (S (length arr)) g arr k)
    as (v' & g' & Hv' & Hrq); [lia | done |].
  assert (v' = v) as -> by congruence.
  pose proof (sorted_lookup_rank _ _ _ Hv) as Hrank. unfold below in Hrank.
  exists v. unfold randomized_quickselect. rewrite Hrq.
  split_and!; [done | done | | | | ].
  - by eapply elem_of_sorted, list_elem_of_lookup_2.
  - unfold Py.len. revert Hrank.
    generalize (length (filter (λ x, x < v) arr))
      (length (filter (λ x, x ≤ v) arr)). lia.
  - unfold Py.len. revert Hrank.
    generalize (length (filter (λ x, x < v) arr))
      (length (filter (λ x, x ≤ v) arr)). lia.
  - intros w Hw. unfold Py.len in Hw.
    destruct (Z.lt_trichotomy w v) as [Hlt|[->|Hgt]]; [|done|].
    + pose proof (length_filter_mono (λ x, x ≤ w) (λ x, x < v) arr
                    ltac:(clear -Hlt; simpl; lia)) as Hmono.
      revert Hrank Hw Hmono.
      generalize (length (filter (λ x, x < v) arr))
        (length (filter (λ x, x ≤ v) arr))
        (length (filter (λ x, x < w) arr))
        (length (filter (λ x, x ≤ w) arr)). lia.
    + pose proof (length_filter_mono (λ x, x ≤ v) (λ x, x < w) arr
                    ltac:(clear -Hgt; simpl; lia)) as Hmono.
      revert Hrank Hw Hmono.
      generalize (length (filter (λ x, x < v) arr))
        (length (filter (λ x, x ≤ v) arr))
        (length (filter (λ x, x < w) arr))
        (length (filter (λ x, x ≤ w) arr)). lia.
Qed.

Lemma selectors_rank_characterisation_witness :
  1 ≤ 3 ≤ Py.len [4; 1; 4; 2; 8; 2; 6]
  ∧ ∃ v,
      median_of_medians [4; 1; 4; 2; 8; 2; 6] 3 = Return v
      ∧ (randomized_quickselect [5; 1; 3] [4; 1; 4; 2; 8; 2; 6] 3).1
        = Return v
      ∧ v ∈ [4; 1; 4; 2; 8; 2; 6]
      ∧ Py.len (filter (λ x, x < v) [4; 1; 4; 2; 8; 2; 6]) < 3
          ≤ Py.len (filter (λ x, x ≤ v) [4; 1; 4; 2; 8; 2; 6])
      ∧ (∀ w,
           Py.len (filter (λ x, x < w) [4; 1; 4; 2; 8; 2; 6]) < 3
             ≤ Py.len (filter (λ x, x ≤ w) [4; 1; 4; 2; 8; 2; 6]) →
           w = v).
Proof.
  split; [vm_compute; split; discriminate|].
  apply (selectors_rank_characterisation [5; 1; 3] [4; 1; 4; 2; 8; 2; 6] 3).
  vm_compute; split; discriminate.
Defined.

(** X4: On a non-empty list, rank 1 selects the minimum and rank [len(arr)] the
    maximum, with either selector. *)
Theorem selectors_boundary_ranks `{RandomSource G} (g : G) arr :
  arr ≠ [] →
  ∃ lo hi,
    median_of_medians arr 1 = Return lo
    ∧ median_of_medians arr (Py.len arr) = Return hi
    ∧ (randomized_quickselect g arr 1).1 = Return lo
    ∧ (randomized_quickselect g arr (Py.len arr)).1 = Return hi
    ∧ lo ∈ arr ∧ hi ∈ arr
    ∧ Forall (λ x, lo ≤ x ≤ hi) arr.
Proof.
  intros Hne.
  assert (1 ≤ Py.len arr) as Hlen
    by (destruct arr; [done | unfold Py.len; cbn [length]; lia]).
  destruct (median_of_medians_fuel_correct (S (length arr)) arr 1)
    as (lo & Hlo & Hmlo); [lia | lia |].
  destruct (median_of_medians_fuel_correct (S (length arr)) arr (Py.len arr))
    as (hi & Hhi & Hmhi); [lia | lia |].
  destruct (randomized_quickselect_fuel_correct (S (length arr)) g arr 1)
    as (lo' & g1 & Hlo' & Hrlo); [lia | lia |].
  destruct (randomized_quickselect_fuel_correct (S (length arr)) g arr
              (Py.len arr)) as (hi' & g2 & Hhi' & Hrhi); [lia | lia |].
  assert (lo' = lo) as -> by congruence.
  assert (hi' = hi) as -> by congruence.
  exists lo, hi. unfold randomized_quickselect. rewrite Hrlo, Hrhi.
  split_and!; try done.
  - by eapply elem_of_sorted, list_elem_of_lookup_2.
  - by eapply elem_of_sorted, list_elem_of_lookup_2.
  - apply Forall_forall. intros x Hx%elem_of_sorted.
    apply list_elem_of_lookup in Hx as [i Hi].
    apply lookup_lt_Some in Hi as Hlt. rewrite length_sorted in Hlt.
    split.
    + eapply (sorted_lookup_mono arr (Z.to_nat (1 - 1)) i); [lia | done..].
    + eapply (sorted_lookup_mono arr i (Z.to_nat (Py.len arr - 1)));
        [unfold Py.len; lia | done..].
Qed.

Lemma selectors_boundary_ranks_witness :
  [9; 3; 7; 1; 8; 2; 5] ≠ []
  ∧ ∃ lo hi,
      median_of_medians [9; 3; 7; 1; 8; 2; 5] 1 = Return lo
      ∧ median_of_medians [9; 3; 7; 1; 8; 2; 5]
          (Py.len [9; 3; 7; 1; 8; 2; 5]) = Return hi
      ∧ (randomized_quickselect [2; 7; 1] [9; 3; 7; 1; 8; 2; 5] 1).1
        = Return lo
      ∧ (randomized_quickselect [2; 7; 1] [9; 3; 7; 1; 8; 2; 5]
           (Py.len [9; 3; 7; 1; 8; 2; 5])).1 = Return hi
      ∧ lo ∈ [9; 3; 7; 1; 8; 2; 5] ∧ hi ∈ [9; 3; 7; 1; 8; 2; 5]
      ∧ Forall (λ x, lo ≤ x ≤ hi) [9; 3; 7; 1; 8; 2; 5].
Proof.
  split; [discriminate|].
  apply (selectors_boundary_ranks [2; 7; 1] [9; 3; 7; 1; 8; 2; 5]).
  discriminate.
Defined.

(** X5: A larger valid rank never selects a smaller value. *)
Theorem selectors_monotone_in_rank `{RandomSource G} (g : G) arr k1 k2 :
  1 ≤ k1 → k1 ≤ k2 → k2 ≤ Py.len arr →
  ∃ v1 v2,
    median_of_medians arr k1 = Return v1
    ∧ median_of_medians arr k2 = Return v2
    ∧ (randomized_quickselect g arr k1).1 = Return v1
    ∧ (randomized_quickselect g arr k2).1 = Return v2
    ∧ v1 ≤ v2.
Proof.
  intros H1 H12 H2.
  destruct (median_of_medians_fuel_correct (S (length arr)) arr k1)
    as (v1 & Hv1 & Hm1); [lia | lia |].
  destruct (median_of_medians_fuel_correct (S (length arr)) arr k2)
    as (v2 & Hv2 & Hm2); [lia | lia |].
  destruct (randomized_quickselect_fuel_correct (S (length arr)) g arr k1)
    as (v1' & g1 & Hv1' & Hr1); [lia | lia |].
  destruct (randomized_quickselect_fuel_correct (S (length arr)) g arr k2)
    as (v2' & g2 & Hv2' & Hr2); [lia | lia |].
  assert (v1' = v1) as -> by congruence.
  assert (v2' = v2) as -> by congruence.
  exists v1, v2. unfold randomized_quickselect. rewrite Hr1, Hr2.
  split_and!; try done.
  eapply (sorted_lookup_mono arr (Z.to_nat (k1 - 1)) (Z.to_nat (k2 - 1)));
    [lia | done..].
Qed.

Lemma selectors_monotone_in_rank_witness :
  1 ≤ 2 ∧ 2 ≤ 5 ∧ 5 ≤ Py.len [9; 3; 7; 1; 8; 2; 5]
  ∧ ∃ v1 v2,
      median_of_medians [9; 3; 7; 1; 8; 2; 5] 2 = Return v1
      ∧ median_of_medians [9; 3; 7; 1; 8; 2; 5] 5 = Return v2
      ∧ (randomized_quickselect [4; 4; 4] [9; 3; 7; 1; 8; 2; 5] 2).1
        = Return v1
      ∧ (randomized_quickselect [4; 4; 4] [9; 3; 7; 1; 8; 2; 5] 5).1
        = Return v2
      ∧ v1 ≤ v2.
Proof.
  split_and!; [lia | lia | vm_compute; discriminate |].
  apply (selectors_monotone_in_rank [4; 4; 4] [9; 3; 7; 1; 8; 2; 5] 2 5);
    [lia | lia | vm_compute; discriminate].
Defined.

(** X6: At a valid rank the result depends on the elements of the list only,
    not on their order: permuting the input changes neither selector's
    result. *)
Theorem selectors_permutation_invariant `{RandomSource G} (g1 g2 : G)
    arr1 arr2 k :
  arr1 ≡ₚ arr2 →
  1 ≤ k ≤ Py.len arr1 →
  median_of_medians arr1 k = median_of_medians arr2 k
  ∧ (randomized_quickselect g1 arr1 k).1
    = (randomized_quickselect g2 arr2 k).1.
Proof.
  intros Hperm Hk.
  assert (Py.sorted arr1 = Py.sorted arr2) as Hsorted.
  { symmetry. apply sorted_unique; [apply sorted_StronglySorted|].
    by rewrite sorted_Permutation. }
  assert (length arr1 = length arr2) as Hlen by by rewrite Hperm.
  unfold Py.len in Hk.
  destruct (median_of_medians_fuel_correct (S (length arr1)) arr1 k)
    as (v1 & Hv1 & Hm1); [lia | done |].
  destruct (median_of_medians_fuel_correct (S (length arr2)) arr2 k)
    as (v2 & Hv2 & Hm2); [lia | unfold Py.len; lia |].
  destruct (randomized_quickselect_fuel_correct (S (length arr1)) g1 arr1 k)
    as (w1 & g1' & Hw1 & Hr1); [lia | done |].
  destruct (randomized_quickselect_fuel_correct (S (length arr2)) g2 arr2 k)
    as (w2 & g2' & Hw2 & Hr2); [lia | unfold Py.len; lia |].
  unfold median_of_medians, randomized_quickselect.
  rewrite Hm1, Hm2, Hr1, Hr2. simpl. rewrite Hsorted in *.
  split; congruence.
Qed.

Lemma selectors_permutation_invariant_witness :
  [3; 1; 2; 1] ≡ₚ [1; 1; 2; 3]
  ∧ 1 ≤ 3 ≤ Py.len [3; 1; 2; 1]
  ∧ median_of_medians [3; 1; 2; 1] 3 = median_of_medians [1; 1; 2; 3] 3
  ∧ (randomized_quickselect [0; 2] [3; 1; 2; 1] 3).1
    = (randomized_quickselect [3; 1] [1; 1; 2; 3] 3).1.
Proof.
  assert ([3; 1; 2; 1] ≡ₚ [1; 1; 2; 3]) as Hperm.
  { change [3; 1; 2; 1] with ([3] ++ [1; 2; 1]).
    rewrite (comm (++)). simpl. apply perm_skip, perm_swap. }
  split; [exact Hperm|]. split; [vm_compute; split; discriminate|].
  apply (selectors_permutation_invariant [0; 2] [3; 1] _ _ 3 Hperm).
  vm_compute; split; discriminate.
Defined.

(** ** randomized_quickselect at ranks outside [1, len(arr)] *)

Section quickselect_out_of_range.
Context {G : Type} `{!RandomSource G}.
Implicit Types (g : G) (arr : list Z) (k : Z).

Lemma randomized_quickselect_fuel_rank_too_large fuel g arr k v g' :
  (length arr < fuel)%nat → Py.len arr < k →
  randomized_quickselect_fuel fuel g arr k = (Return v, g') →
  v ∈ arr ∧ Forall (λ x, x ≤ v) arr.
Proof.
  revert g arr k.
  induction fuel as [|fuel IH]; intros g arr k Hfuel Hk; [lia|].
  destruct (decide (arr = [])) as [->|Hne].
  { by rewrite randomized_quickselect_fuel_empty. }
  assert (1 ≤ Py.len arr) as Hlen
    by (destruct arr; [done | unfold Py.len; cbn [length]; lia]).
  simpl. destruct (Z.eqb_spec (Py.len arr) 1) as [Hone|Hmore].
  { destruct arr as [|x [|y arr]]; [done | |];
      [|unfold Py.len in Hone; cbn [length] in Hone; lia].
    intros [= <- <-]. split; [left | repeat constructor; lia]. }
  destruct (pivot_choice g arr) as (i & pivot & g1 & -> & -> & Hin);
    [done.. |].
  rewrite partition_spec.
  pose proof (three_way_length pivot arr) as Hsum.
  pose proof (above_shorter pivot arr Hin).
  assert (0 ≤ Py.len (above pivot arr)) by (unfold Py.len; lia).
  assert (0 ≤ Py.len (equal_to pivot arr)) by (unfold Py.len; lia).
  destruct (Z.leb_spec k (Py.len (below pivot arr))); [lia|].
  destruct (Z.gtb_spec k (Py.len (below pivot arr)
                          + Py.len (equal_to pivot arr))); [|lia].
  intros Hrec. apply IH in Hrec as [Hv Hall]; [|lia..].
  split; [by apply (above_subseteq pivot)|].
  apply list_elem_of_filter in Hv as [Hv _].
  rewrite Forall_forall in Hall |- *. intros x Hx.
  destruct (decide (pivot < x)) as [Habove|Hlow]; [|lia].
  apply Hall. by apply list_elem_of_filter.
Qed.

Lemma randomized_quickselect_fuel_rank_too_small fuel g arr k v g' :
  (length arr < fuel)%nat → k ≤ 0 →
  randomized_quickselect_fuel fuel g arr k = (Return v, g') →
  v ∈ arr ∧ Forall (λ x, v ≤ x) arr.
Proof.
  revert g arr.
  induction fuel as [|fuel IH]; intros g arr Hfuel Hk; [lia|].
  destruct (decide (arr = [])) as [->|Hne].
  { by rewrite randomized_quickselect_fuel_empty. }
  assert (1 ≤ Py.len arr) as Hlen
    by (destruct arr; [done | unfold Py.len; cbn [length]; lia]).
  simpl. destruct (Z.eqb_spec (Py.len arr) 1) as [Hone|Hmore].
  { destruct arr as [|x [|y arr]]; [done | |];
      [|unfold Py.len in Hone; cbn [length] in Hone; lia].
    intros [= <- <-]. split; [left | repeat constructor; lia]. }
  destruct (pivot_choice g arr) as (i & pivot & g1 & -> & -> & Hin);
    [done.. |].
  rewrite partition_spec.
  pose proof (below_shorter pivot arr Hin).
  assert (0 ≤ Py.len (below pivot arr)) by (unfold Py.len; lia).
  destruct (Z.leb_spec k (Py.len (below pivot arr))); [|lia].
  intros Hrec. apply IH in Hrec as [Hv Hall]; [|lia..].
  split; [by apply (below_subseteq pivot)|].
  apply list_elem_of_filter in Hv as [Hv _].
  rewrite Forall_forall in Hall |- *. intros x Hx.
  destruct (decide (x < pivot)) as [Hbelow|Hhigh]; [|lia].
  apply Hall. by apply list_elem_of_filter.
Qed.
End quickselect_out_of_range.

(** X7: [randomized_quickselect] does not reject a rank outside [1, len(arr)]:
    when such a call returns at all, a rank [k <= 0] has produced the minimum
    of the list and a rank [k > len(arr)] its maximum. *)
Theorem randomized_quickselect_rank_out_of_range `{RandomSource G}
    (g g' : G) arr k v :
  randomized_quickselect g arr k = (Return v, g') →
  (k ≤ 0 → v ∈ arr ∧ Forall (λ x, v ≤ x) arr)
  ∧ (Py.len arr < k → v ∈ arr ∧ Forall (λ x, x ≤ v) arr).
Proof.
  intros Hrq. split; intros Hk.
  - eapply randomized_quickselect_fuel_rank_too_small; [|done..]. lia.
  - eapply randomized_quickselect_fuel_rank_too_large; [|done..]. lia.
Qed.

Lemma randomized_quickselect_rank_out_of_range_witness :
  randomized_quickselect [0; 1] [3; 1; 2] 0 = (Return 1, [])
  ∧ (0 ≤ 0 → 1 ∈ [3; 1; 2] ∧ Forall (λ x, 1 ≤ x) [3; 1; 2])
  ∧ (Py.len [3; 1; 2] < 0 → 1 ∈ [3; 1; 2] ∧ Forall (λ x, x ≤ 1) [3; 1; 2]).
Proof.
  split; [by vm_compute|].
  apply (randomized_quickselect_rank_out_of_range [0; 1] [] [3; 1; 2] 0 1).
  by vm_compute.
Defined.

(** X8: The partition loop works for any pivot, in the list or not: [left] and
    [right] are the elements below and above the pivot in their original
    order, the three counts add up to the length of the list, and
    [pivot_count] is zero exactly when the pivot does not occur. *)
Theorem partition_any_pivot pivot arr :
  ∃ left_ right_ pivot_count,
    partition pivot arr = (left_, right_, pivot_count)
    ∧ left_ = filter (λ x, x < pivot) arr
    ∧ right_ = filter (λ x, pivot < x) arr
    ∧ left_ `sublist_of` arr
    ∧ right_ `sublist_of` arr
    ∧ Py.len left_ + pivot_count + Py.len right_ = Py.len arr
    ∧ 0 ≤ pivot_count
    ∧ (pivot_count = 0 ↔ pivot ∉ arr).
Proof.
  exists (below pivot arr), (above pivot arr), (Py.len (equal_to pivot arr)).
  split_and!; [apply partition_spec | done | done | apply sublist_filter
              | apply sublist_filter | | unfold Py.len; lia |].
  - pose proof (three_way_length pivot arr). lia.
  - split.
    + intros Hzero Hin. apply equal_to_nonempty in Hin. lia.
    + intros Hout. unfold Py.len, equal_to.
      destruct (filter _ arr) as [|x l] eqn:Hfilter; [done|].
      assert (x ∈ filter (λ x, x = pivot) arr) as Hx
        by (rewrite Hfilter; left).
      apply list_elem_of_filter in Hx as [-> Hx]. done.
Qed.

(** ** The quality of the median-of-medians pivot *)

Lemma length_filter_ge_split v (l : list Z) :
  length (filter (λ x, v ≤ x) l) = (length l - length (below v l))%nat.
Proof.
  unfold below. induction l as [|x l IH]; [done|].
  pose proof (length_filter (λ x, x < v) l).
  rewrite !filter_cons. repeat case_decide; simpl; lia.
Qed.

(** At least [i + 1] elements satisfy a property that holds for everything
    up to the element at index [i] of the sorted list... *)
Lemma count_up_to_sorted_index (P : Z → Prop) `{∀ x, Decision (P x)}
    (l : list Z) (i : nat) v :
  Py.sorted l !! i = Some v → (∀ x, x ≤ v → P x) →
  (i + 1 ≤ length (filter P l))%nat.
Proof.
  intros Hv HP.
  pose proof (sorted_lookup_rank _ _ _ Hv) as [_ Hrank].
  pose proof (length_filter_mono (λ x, x ≤ v) P l HP). lia.
Qed.

(** ... and at least [len(l) - i] elements satisfy a property that holds
    for everything from that element on. *)
Lemma count_from_sorted_index (Q : Z → Prop) `{∀ x, Decision (Q x)}
    (l : list Z) (i : nat) v :
  Py.sorted l !! i = Some v → (∀ x, v ≤ x → Q x) →
  (length l ≤ i + length (filter Q l))%nat.
Proof.
  intros Hv HQ.
  pose proof (sorted_lookup_rank _ _ _ Hv) as [Hrank _].
  pose proof (length_filter_mono (λ x, v ≤ x) Q l HQ).
  pose proof (length_filter_ge_split v l). lia.
Qed.

(** Only the last group can have fewer than five elements. *)
Lemma short_groups arr :
  (length (filter (λ group, length group ≠ 5) (groups arr)) ≤ 1)%nat.
Proof.
  unfold groups. rewrite range_five.
  pose proof (Nat.div_mod (length arr + 4) 5 ltac:(done)) as Hq.
  pose proof (Nat.mod_upper_bound (length arr + 4) 5 ltac:(done)) as Hr.
  destruct ((length arr + 4) / 5)%nat as [|m] eqn:Hm; [simpl; lia|].
  rewrite seq_S, !fmap_app, filter_app, length_app. simpl.
  assert (Forall (λ group, length group = 5%nat)
            (group_at arr <$> ((λ j, j * 5)%nat <$> seq 0 m))) as Hfull.
  { rewrite !Forall_fmap. apply Forall_seq. intros j Hj. simpl.
    rewrite length_group_at. lia. }
  assert (filter (λ group, length group ≠ 5%nat)
            (group_at arr <$> ((λ j, j * 5)%nat <$> seq 0 m)) = []) as ->.
  { induction Hfull as [|group gs Hgroup _ IH]; [done|].
    rewrite filter_cons. by case_decide. }
  rewrite filter_cons. case_decide; simpl; lia.
Qed.

(** Counting over the groups: each median that satisfies [good] vouches for
    three elements of its group that satisfy [P], or for one if the group is
    the short one. *)
Lemma count_in_groups (P good : Z → Prop)
    `{∀ x, Decision (P x)} `{∀ x, Decision (good x)} gs ms :
  Forall2 is_median_of gs ms →
  (∀ group m, is_median_of group m → good m →
     (1 ≤ length (filter P group))%nat
     ∧ (length group = 5%nat → (3 ≤ length (filter P group))%nat)) →
  (3 * length (filter good ms)
   ≤ length (filter P (concat gs))
     + 2 * length (filter (λ group, length group ≠ 5) gs))%nat.
Proof.
  intros HF Hcount.
  induction HF as [|group m gs ms Hmed _ IH]; [done|].
  simpl. rewrite filter_app, length_app, !filter_cons.
  destruct (decide (good m)) as [Hgood|Hbad].
  - destruct (Hcount group m Hmed Hgood) as [Hone Hthree].
    case_decide as Hlen; simpl; [lia|].
    specialize (Hthree Hlen). lia.
  - case_decide; simpl; lia.
Qed.

Lemma median_vouches_below group m p :
  is_median_of group m → m ≤ p →
  (1 ≤ length (filter (λ x, (x ≤ p)%Z) group))%nat
  ∧ (length group = 5%nat
     → (3 ≤ length (filter (λ x, (x ≤ p)%Z) group))%nat).
Proof.
  intros Hmed Hmp.
  pose proof (count_up_to_sorted_index (λ x, x ≤ p) group _ m Hmed
                ltac:(clear -Hmp; simpl; lia)) as Hcount.
  revert Hcount. generalize (length (filter (λ x, x ≤ p) group)).
  intros n Hcount. split; [lia|]. intros Hlen.
  unfold Py.len in Hcount. rewrite Hlen in Hcount.
  change (Z.to_nat (Z.of_nat 5 / 2)) with 2%nat in Hcount. lia.
Qed.

Lemma median_vouches_above group m p :
  is_median_of group m → p ≤ m →
  (1 ≤ length (filter (λ x, (p ≤ x)%Z) group))%nat
  ∧ (length group = 5%nat
     → (3 ≤ length (filter (λ x, (p ≤ x)%Z) group))%nat).
Proof.
  intros Hmed Hpm.
  pose proof (count_from_sorted_index (λ x, p ≤ x) group _ m Hmed
                ltac:(clear -Hpm; simpl; lia)) as Hcount.
  apply lookup_lt_Some in Hmed as Hidx. rewrite length_sorted in Hidx.
  revert Hcount. generalize (length (filter (λ x, p ≤ x) group)).
  intros n Hcount. split; [lia|]. intros Hlen.
  unfold Py.len in Hcount. rewrite Hlen in Hcount.
  change (Z.to_nat (Z.of_nat 5 / 2)) with 2%nat in Hcount. lia.
Qed.

(** X9: The pivot [median_of_medians] partitions around is good: it is an
    element of the list, and neither side of the partition holds more than
    about seven tenths of the elements. *)
Theorem median_of_medians_pivot_balance arr medians pivot :
  5 < Py.len arr →
  group_medians arr = Return medians →
  median_of_medians medians (Py.len medians / 2 + 1) = Return pivot →
  ∃ left_ right_ pivot_count,
    partition pivot arr = (left_, right_, pivot_count)
    ∧ pivot ∈ arr
    ∧ 10 * Py.len left_ ≤ 7 * Py.len arr + 20
    ∧ 10 * Py.len right_ ≤ 7 * Py.len arr + 5.
Proof.
  intros Hbig Hgm Hpivot.
  destruct (medians_facts arr Hbig)
    as (medians' & Hgm' & HF & Hsub & Hcount & Hshort & Hrank).
  assert (medians' = medians) as -> by congruence.
  destruct (median_of_medians_fuel_correct (S (length medians)) medians
              (Py.len medians / 2 + 1)) as (pivot' & Hidx & Hrec);
    [lia | done |].
  assert (pivot' = pivot) as ->
    by (unfold median_of_medians in Hpivot; congruence).
  replace (Py.len medians / 2 + 1 - 1) with (Py.len medians / 2) in Hidx
    by lia.
  assert (pivot ∈ arr) as Hin.
  { by eapply Hsub, elem_of_sorted, list_elem_of_lookup_2. }
  exists (below pivot arr), (above pivot arr), (Py.len (equal_to pivot arr)).
  split; [apply partition_spec|]. split; [done|].
  (* medians on either side of the pivot *)
  pose proof (count_up_to_sorted_index (λ x, x ≤ pivot) medians _ pivot Hidx
                ltac:(simpl; intros; done)) as Hlow.
  pose proof (count_from_sorted_index (λ x, pivot ≤ x) medians _ pivot Hidx
                ltac:(simpl; intros; done)) as Hhigh.
  (* the elements they vouch for *)
  pose proof (count_in_groups (λ x, x ≤ pivot) (λ m, m ≤ pivot) _ _ HF
                (λ group m Hm Hgood, median_vouches_below group m pivot Hm Hgood))
    as Hbelow.
  pose proof (count_in_groups (λ x, pivot ≤ x) (λ m, pivot ≤ m) _ _ HF
                (λ group m Hm Hgood, median_vouches_above group m pivot Hm Hgood))
    as Habove.
  rewrite concat_groups in Hbelow, Habove.
  pose proof (short_groups arr) as Hlast.
  pose proof (length_filter_ge_split pivot arr) as Hge.
  pose proof (length_filter_le_split pivot arr) as Hle.
  pose proof (three_way_length pivot arr) as Hsum.
  pose proof (Nat.div_mod (length arr + 4) 5 ltac:(done)) as Hq.
  pose proof (Nat.mod_upper_bound (length arr + 4) 5 ltac:(done)) as Hr.
  rewrite <- Hcount in Hq.
  pose proof (Z.div_mod (Py.len medians) 2 ltac:(done)) as Hhalf.
  pose proof (Z.mod_pos_bound (Py.len medians) 2 ltac:(done)) as Hhalf'.
  unfold Py.len in *.
  revert Hlow Hhigh Hbelow Habove Hlast Hge Hle Hsum Hq Hr Hhalf Hhalf'.
  generalize (length (filter (λ x, x ≤ pivot) medians))
    (length (filter (λ x, pivot ≤ x) medians))
    (length (filter (λ x, x ≤ pivot) arr))
    (length (filter (λ x, pivot ≤ x) arr))
    (length (filter (λ group : list Z, length group ≠ 5%nat) (groups arr)))
    (length (below pivot arr)) (length (above pivot arr))
    (length (equal_to pivot arr))
    (Z.of_nat (length medians) / 2) (Z.of_nat (length medians) `mod` 2)
    ((length arr + 4) `mod` 5)%nat.
  intros. lia.
Qed.

Lemma median_of_medians_pivot_balance_witness :
  5 < Py.len [9; 3; 7; 1; 8; 2; 5; 10; 11; 12; 13; 5; 5]
  ∧ group_medians [9; 3; 7; 1; 8; 2; 5; 10; 11; 12; 13; 5; 5]
    = Return [7; 10; 5]
  ∧ median_of_medians [7; 10; 5] (Py.len [7; 10; 5] / 2 + 1) = Return 7
  ∧ ∃ left_ right_ pivot_count,
      partition 7 [9; 3; 7; 1; 8; 2; 5; 10; 11; 12; 13; 5; 5]
      = (left_, right_, pivot_count)
      ∧ 7 ∈ [9; 3; 7; 1; 8; 2; 5; 10; 11; 12; 13; 5; 5]
      ∧ 10 * Py.len left_
        ≤ 7 * Py.len [9; 3; 7; 1; 8; 2; 5; 10; 11; 12; 13; 5; 5] + 20
      ∧ 10 * Py.len right_
        ≤ 7 * Py.len [9; 3; 7; 1; 8; 2; 5; 10; 11; 12; 13; 5; 5] + 5.
Proof.
  split_and!; [by vm_compute.. |].
  apply (median_of_medians_pivot_balance
           [9; 3; 7; 1; 8; 2; 5; 10; 11; 12; 13; 5; 5] [7; 10; 5] 7);
    by vm_compute.
Defined.

(** * Further properties of the containers *)

Section container_programs.
Context {A : Type}.

Lemma stack_push_eta (s : Stack.t A) x :
  Stack.push s x = {| Stack.items := Stack.items s ++ [x] |}.
Proof. done. Qed.

Lemma pop_times_push_all (s : Stack.t A) xs :
  pop_times (length xs) (foldl Stack.push s xs) = (Return (reverse xs), s).
Proof.
  revert s. induction xs as [|x xs IH] using rev_ind; intros s; [done|].
  rewrite length_app, Nat.add_comm, foldl_snoc, reverse_snoc. simpl.
  rewrite stack_push_eta, stack_pop_snoc.
  replace {| Stack.items := Stack.items (foldl Stack.push s xs) |}
    with (foldl Stack.push s xs) by (by destruct (foldl Stack.push s xs)).
  by rewrite IH.
Qed.

Lemma queue_dequeue_cons (x : A) rest :
  Queue.dequeue {| Queue.items := x :: rest |}
  = (Return x, {| Queue.items := rest |}).
Proof. done. Qed.

Lemma dequeue_times_items (q : Queue.t A) :
  dequeue_times (length (Queue.items q)) q
  = (Return (Queue.items q), Queue.init).
Proof.
  destruct q as [items]. cbn [Queue.items].
  induction items as [|x items IH]; [done|].
  cbn [length dequeue_times]. by rewrite queue_dequeue_cons, IH.
Qed.

(** X10: Whatever is pushed on a stack comes back in reverse order: after pushing
    [xs], as many calls of [pop] return [xs] reversed and leave the stack as
    it was before; on a stack that started empty one more [pop] raises. *)
Theorem stack_push_then_pop (s : Stack.t A) (xs : list A) :
  pop_times (length xs) (foldl Stack.push s xs) = (Return (reverse xs), s)
  ∧ pop_times (S (length xs)) (foldl Stack.push Stack.init xs)
    = (Raise IndexError, Stack.init).
Proof.
  split; [apply pop_times_push_all|].
  revert xs. induction xs as [|x xs IH] using rev_ind; [done|].
  rewrite length_app, Nat.add_comm, foldl_snoc.
  cbn [Nat.add length]. cbn [pop_times] in *.
  rewrite stack_push_eta, stack_pop_snoc.
  replace {| Stack.items := Stack.items (foldl Stack.push Stack.init xs) |}
    with (foldl Stack.push Stack.init xs)
    by (by destruct (foldl Stack.push Stack.init xs)).
  by rewrite IH.
Qed.

(** X11: Whatever is enqueued comes back in the same order: after enqueueing
    [xs] on an empty queue, as many calls of [dequeue] return [xs] and leave
    the queue empty, and one more [dequeue] raises. *)
Theorem queue_enqueue_then_dequeue (xs : list A) :
  dequeue_times (length xs) (foldl Queue.enqueue Queue.init xs)
  = (Return xs, Queue.init)
  ∧ dequeue_times (S (length xs)) (foldl Queue.enqueue Queue.init xs)
    = (Raise IndexError, Queue.init).
Proof.
  pose proof (queue_items_enqueue_all Queue.init xs) as Hitems.
  simpl in Hitems.
  pose proof (dequeue_times_items (foldl Queue.enqueue Queue.init xs))
    as Hall.
  rewrite Hitems in Hall. split; [done|].
  destruct (foldl Queue.enqueue Queue.init xs) as [items].
  simpl in Hitems. subst items. clear Hall.
  induction xs as [|x xs IH]; [done|].
  cbn [length]. cbn [dequeue_times] in *.
  by rewrite queue_dequeue_cons, IH.
Qed.

(** X12: [peek] answers what the removing call would return, and a successful
    removal can be undone: pushing the popped element back restores the
    stack, and a dequeued element was the head of the queue's items. *)
Theorem peek_agrees_with_removal :
  (∀ s : Stack.t A, Stack.peek s = (Stack.pop s).1)
  ∧ (∀ q : Queue.t A, Queue.peek q = (Queue.dequeue q).1)
  ∧ (∀ (s s' : Stack.t A) x,
       Stack.pop s = (Return x, s') → Stack.push s' x = s)
  ∧ (∀ (q q' : Queue.t A) x,
       Queue.dequeue q = (Return x, q') →
       Queue.items q = x :: Queue.items q').
Proof.
  split_and!.
  - intros [items]. destruct items as [|x rest _] using rev_ind; [done|].
    by rewrite stack_pop_snoc, stack_peek_snoc.
  - intros [[|x rest]]; done.
  - intros [items] s' x. destruct items as [|y rest _] using rev_ind; [done|].
    rewrite stack_pop_snoc. by intros [= -> <-].
  - intros [[|y rest]] q' x; [done|]. by intros [= -> <-].
Qed.

(** X13: On a queue that is not empty, enqueueing and dequeueing do not
    interfere: the element dequeued is the same whether the new item is
    enqueued before or after. *)
Theorem queue_enqueue_dequeue_commute (q q' : Queue.t A) x y :
  Queue.dequeue q = (Return x, q') →
  Queue.dequeue (Queue.enqueue q y) = (Return x, Queue.enqueue q' y).
Proof.
  destruct q as [[|z rest]]; [done|]. by intros [= -> <-].
Qed.
End container_programs.

Lemma queue_enqueue_dequeue_commute_witness :
  Queue.dequeue (Queue.enqueue (Queue.enqueue Queue.init 1) 2)
  = (Return 1, Queue.enqueue Queue.init 2)
  ∧ Queue.dequeue
      (Queue.enqueue (Queue.enqueue (Queue.enqueue Queue.init 1) 2) 3)
    = (Return 1, Queue.enqueue (Queue.enqueue Queue.init 2) 3).
Proof.
  split; [reflexivity|].
  apply (queue_enqueue_dequeue_commute
           (Queue.enqueue (Queue.enqueue Queue.init 1) 2)
           (Queue.enqueue Queue.init 2) 1 3).
  reflexivity.
Defined.

(** * Further properties of the linked list *)

Section linked_list_programs.
Context {A : Type} `{EqDecision A}.
Implicit Types (xs : list A) (d x : A).

Local Abbreviation remove_first := LinkedList.remove_first.

Lemma run_ops_represents (ops : list (list_op A)) (self : LinkedList.t A) xs :
  LinkedList.reachable self →
  LinkedList.represents self xs →
  ∃ self', run_ops ops self = Return self'
           ∧ LinkedList.reachable self'
           ∧ LinkedList.represents self' (model_ops ops xs).
Proof.
  revert self xs.
  induction ops as [|[d|d] ops IH]; intros self xs Hreach Hrep; simpl.
  - by exists self.
  - apply IH; [by constructor | by apply insert_head_represents].
  - destruct (delete_represents self xs d Hrep) as (self' & Hdel & Hrep' & _).
    rewrite Hdel. simpl. apply IH; [|done].
    by eapply LinkedList.reachable_delete.
Qed.

Lemma remove_first_length d xs :
  length (remove_first d xs)
  = (length xs - (if decide (d ∈ xs) then 1 else 0))%nat.
Proof.
  induction xs as [|x xs IH]; [done|]. simpl.
  - destruct (decide (x = d)) as [->|Hne].
    + rewrite decide_True by left. lia.
    + simpl. rewrite IH.
      destruct (decide (d ∈ xs)) as [Hin|Hout].
      * rewrite decide_True by (by right).
        apply list_elem_of_lookup in Hin as [i Hi%lookup_lt_Some]. lia.
      * rewrite decide_False; [lia|].
        intros [?|?]%elem_of_cons; congruence.
Qed.

Lemma remove_first_count d y xs :
  length (filter (λ x, x = y) (remove_first d xs))
  = (length (filter (λ x, x = y) xs)
     - (if decide (y = d ∧ d ∈ xs) then 1 else 0))%nat.
Proof.
  induction xs as [|x xs IH]; [done|]. simpl.
  - destruct (decide (x = d)) as [->|Hne].
    + rewrite filter_cons. destruct (decide (d = y)) as [->|Hdy].
      * rewrite decide_True by (split; [done | left]). simpl. lia.
      * rewrite decide_False by (intros [? _]; congruence). lia.
    + rewrite !filter_cons. destruct (decide (x = y)) as [->|Hxy].
      * simpl. rewrite IH.
        rewrite !decide_False by (intros [? _]; congruence). lia.
      * rewrite IH. destruct (decide (y = d ∧ d ∈ xs)) as [[-> Hin]|Hno].
        -- by rewrite decide_True by (split; [done | by right]).
        -- rewrite decide_False; [done|].
           intros [-> [?|?]%elem_of_cons]; [congruence | by apply Hno].
Qed.

Lemma remove_first_comm d1 d2 xs :
  remove_first d1 (remove_first d2 xs) = remove_first d2 (remove_first d1 xs).
Proof.
  induction xs as [|x xs IH]; [done|]. simpl.
  destruct (decide (x = d2)) as [E2|H2], (decide (x = d1)) as [E1|H1];
    simpl; rewrite ?decide_True by done; rewrite ?decide_False by done;
    try done.
  - congruence.
  - by rewrite IH.
Qed.

(** X14: The linked list behaves like an ordinary list: any program of
    [insert_head] and [delete] calls, run from the empty list, raises nothing
    and leaves a list whose [traverse()] is what the same program computes on
    a plain list, where [insert_head] is consing and [delete] drops the first
    occurrence.  In particular inserting [xs] one by one gives [xs]
    reversed. *)
Theorem linked_list_refines_list (ops : list (list_op A)) :
  ∃ self,
    run_ops ops LinkedList.init = Return self
    ∧ LinkedList.reachable self
    ∧ LinkedList.traverse self = Return (model_ops ops []).
Proof.
  destruct (run_ops_represents ops LinkedList.init [])
    as (self & Hrun & Hreach & Hrep).
  - constructor.
  - exists []. constructor.
  - exists self. split_and!; [done | done | by apply traverse_represents].
Qed.

(** X15: [insert_head] puts the new element in front of the sequence
    [traverse()] returns, and deleting that element right away gives the
    old sequence back. *)
Theorem linked_list_insert_then_delete (self : LinkedList.t A) d :
  LinkedList.reachable self →
  ∃ xs self',
    LinkedList.traverse self = Return xs
    ∧ LinkedList.traverse (LinkedList.insert_head self d) = Return (d :: xs)
    ∧ LinkedList.delete (LinkedList.insert_head self d) d = Return self'
    ∧ LinkedList.traverse self' = Return xs.
Proof.
  intros Hreach.
  destruct (reachable_represents self Hreach) as [xs Hrep].
  pose proof (insert_head_represents self xs d Hrep) as Hins.
  destruct (delete_represents _ _ d Hins) as (self' & Hdel & Hrep' & _).
  simpl in Hrep'. rewrite decide_True in Hrep' by done.
  exists xs, self'. split_and!; [| |done|]; by apply traverse_represents.
Qed.

(** X16: [delete] removes one node at most: the sequence gets shorter by one if
    the value occurs and keeps its length otherwise, the number of
    occurrences of the deleted value drops by one (if there was one), and
    the number of occurrences of every other value stays the same. *)
Theorem linked_list_delete_counts (self : LinkedList.t A) d :
  LinkedList.reachable self →
  ∃ xs xs' self',
    LinkedList.traverse self = Return xs
    ∧ LinkedList.delete self d = Return self'
    ∧ LinkedList.traverse self' = Return xs'
    ∧ length xs' = (length xs - (if decide (d ∈ xs) then 1 else 0))%nat
    ∧ (∀ y,
         length (filter (λ x, x = y) xs')
         = (length (filter (λ x, x = y) xs)
            - (if decide (y = d ∧ d ∈ xs) then 1 else 0))%nat).
Proof.
  intros Hreach.
  destruct (reachable_represents self Hreach) as [xs Hrep].
  destruct (delete_represents self xs d Hrep) as (self' & Hdel & Hrep' & _).
  exists xs, (remove_first d xs), self'.
  split_and!; [by apply traverse_represents | done
              | by apply traverse_represents | apply remove_first_length |].
  intros y. apply remove_first_count.
Qed.

(** X17: Two deletions can be done in either order: the resulting sequences are
    the same. *)
Theorem linked_list_delete_commute (self : LinkedList.t A) d1 d2 :
  LinkedList.reachable self →
  ∃ self1 self12 self2 self21 xs,
    LinkedList.delete self d1 = Return self1
    ∧ LinkedList.delete self1 d2 = Return self12
    ∧ LinkedList.delete self d2 = Return self2
    ∧ LinkedList.delete self2 d1 = Return self21
    ∧ LinkedList.traverse self12 = Return xs
    ∧ LinkedList.traverse self21 = Return xs.
Proof.
  intros Hreach.
  destruct (reachable_represents self Hreach) as [xs Hrep].
  destruct (delete_represents self xs d1 Hrep) as (self1 & Hdel1 & Hrep1 & _).
  destruct (delete_represents self1 _ d2 Hrep1)
    as (self12 & Hdel12 & Hrep12 & _).
  destruct (delete_represents self xs d2 Hrep) as (self2 & Hdel2 & Hrep2 & _).
  destruct (delete_represents self2 _ d1 Hrep2)
    as (self21 & Hdel21 & Hrep21 & _).
  exists self1, self12, self2, self21, (remove_first d2 (remove_first d1 xs)).
  split_and!; [done.. | by apply traverse_represents |].
  rewrite remove_first_comm. by apply traverse_represents.
Qed.
End linked_list_programs.

Lemma linked_list_insert_then_delete_witness :
  let self :=
    LinkedList.insert_head
      (LinkedList.insert_head (LinkedList.insert_head LinkedList.init 4) 7) 4
  in
  LinkedList.reachable self
  ∧ ∃ xs self',
      LinkedList.traverse self = Return xs
      ∧ LinkedList.traverse (LinkedList.insert_head self 7)
        = Return (7 :: xs)
      ∧ LinkedList.delete (LinkedList.insert_head self 7) 7 = Return self'
      ∧ LinkedList.traverse self' = Return xs.
Proof.
  intros self.
  assert (LinkedList.reachable self) as Hreach.
  { repeat apply LinkedList.reachable_insert_head.
    apply LinkedList.reachable_init. }
  split; [exact Hreach|].
  exact (linked_list_insert_then_delete self 7 Hreach).
Defined.

Lemma linked_list_delete_counts_witness :
  let self :=
    LinkedList.insert_head
      (LinkedList.insert_head (LinkedList.insert_head LinkedList.init 4) 7) 4
  in
  LinkedList.reachable self
  ∧ ∃ xs xs' self',
      LinkedList.traverse self = Return xs
      ∧ LinkedList.delete self 4 = Return self'
      ∧ LinkedList.traverse self' = Return xs'
      ∧ length xs' = (length xs - (if decide (4%Z ∈ xs) then 1 else 0))%nat
      ∧ (∀ y,
           length (filter (λ x, x = y) xs')
           = (length (filter (λ x, x = y) xs)
              - (if decide (y = 4%Z ∧ 4%Z ∈ xs) then 1 else 0))%nat).
Proof.
  intros self.
  assert (LinkedList.reachable self) as Hreach.
  { repeat apply LinkedList.reachable_insert_head.
    apply LinkedList.reachable_init. }
  split; [exact Hreach|].
  exact (linked_list_delete_counts self 4 Hreach).
Defined.

Lemma linked_list_delete_commute_witness :
  let self :=
    LinkedList.insert_head
      (LinkedList.insert_head (LinkedList.insert_head LinkedList.init 4) 7) 4
  in
  LinkedList.reachable self
  ∧ ∃ self1 self12 self2 self21 xs,
      LinkedList.delete self 4 = Return self1
      ∧ LinkedList.delete self1 7 = Return self12
      ∧ LinkedList.delete self 7 = Return self2
      ∧ LinkedList.delete self2 4 = Return self21
      ∧ LinkedList.traverse self12 = Return xs
      ∧ LinkedList.traverse self21 = Return xs.
Proof.
  intros self.
  assert (LinkedList.reachable self) as Hreach.
  { repeat apply LinkedList.reachable_insert_head.
    apply LinkedList.reachable_init. }
  split; [exact Hreach|].
  exact (linked_list_delete_commute self 4 7 Hreach).
Defined.
